(** * ai-parser: the streaming decoder of [Parser.parse]

    A shallow embedding of the TypeScript class [Parser] (options, presets,
    constructor and the async generator [parse]) together with the
    properties its specification states about it.

    Conventions of the embedding.
    - A JavaScript string is a [string]: a sequence of code units, here
      8-bit characters.
    - The async generator [parse] is embedded as a function that returns
      the trace of its observable effects in program order: every
      [await reader.read()], every call of the custom [chunkParser] and
      every [yield].
    - The reader is a script of the results its successive [read()] calls
      resolve to.
    - What the platform provides ([TextDecoder], [JSON.parse], numbers and
      radash's [get]) is a parameter: the class [Runtime]. *)

From Stdlib Require Import List String Ascii Bool Arith ZArith Lia.
From Stdlib Require Import DecimalString.
From Stdlib.Strings Require Import Byte.
Import ListNotations.

Set Warnings "-register-all".

Open Scope string_scope.
Open Scope list_scope.

(** JavaScript's [+] on two strings. *)
Infix "+++" := String.append (right associativity, at level 60).

(* ================================================================== *)
(** * JavaScript values *)

(** The values the program handles: what [JSON.parse] returns, what a
    custom parser may return, and [Error] instances. Numbers are kept
    abstract (they are IEEE doubles); an object is the list of its own
    properties in insertion order. *)
Inductive JsVal (Number : Type) : Type :=
| VUndefined
| VNull
| VBool (b : bool)
| VNum (n : Number)
| VStr (s : string)
| VArr (items : list (JsVal Number))
| VObj (props : list (string * JsVal Number))
| VError (message : string).

Arguments VUndefined {Number}.
Arguments VNull {Number}.
Arguments VBool {Number} b.
Arguments VNum {Number} n.
Arguments VStr {Number} s.
Arguments VArr {Number} items.
Arguments VObj {Number} props.
Arguments VError {Number} message.

(** What the JavaScript platform and the radash library provide.
    - [decode v] is [new TextDecoder().decode(v)], called afresh on every
      buffer (the source passes no [stream] flag);
    - [JSON_parse s] is [JSON.parse(s)], [None] when it throws;
    - [get v path] is radash's [get(v, path)] with no default value: it
      returns [VUndefined] when the path is absent. *)
Class Runtime : Type := {
  Number : Type;
  number_to_string : Number -> string;
  number_truthy : Number -> bool;
  decode : list byte -> string;
  JSON_parse : string -> option (JsVal Number);
  get : JsVal Number -> string -> JsVal Number
}.

(* ================================================================== *)
(** * String primitives *)

Definition newline : ascii := ascii_of_nat 10.

(** [s.split('\n')]: never empty, [''.split('\n')] is [['']]. *)
Fixpoint split_newline (s : string) : list string :=
  match s with
  | EmptyString => [EmptyString]
  | String c s' =>
      if Ascii.eqb c newline then EmptyString :: split_newline s'
      else match split_newline s' with
           | [] => [String c EmptyString]
           | row :: rows => String c row :: rows
           end
  end.

(** [s.startsWith(p)]. *)
Definition startsWith (s p : string) : bool := String.prefix p s.

(** [s.substring(n)]: [s] without its first [n] code units. *)
Fixpoint substring_from (n : nat) (s : string) : string :=
  match n, s with
  | O, _ => s
  | S _, EmptyString => EmptyString
  | S n', String _ s' => substring_from n' s'
  end.

(** White space and line terminators among the 8-bit code units. *)
Definition is_space (c : ascii) : bool :=
  let n := nat_of_ascii c in
  (Nat.leb 9 n && Nat.leb n 13) || Nat.eqb n 32 || Nat.eqb n 160.

Fixpoint trim_start (s : string) : string :=
  match s with
  | EmptyString => EmptyString
  | String c s' => if is_space c then trim_start s' else s
  end.

Fixpoint trim_end (s : string) : string :=
  match s with
  | EmptyString => EmptyString
  | String c s' =>
      match trim_end s' with
      | EmptyString => if is_space c then EmptyString else String c EmptyString
      | t => String c t
      end
  end.

(** [s.trim()]. *)
Definition trim (s : string) : string := trim_end (trim_start s).

(** The array index a property key names, if any: the canonical decimal
    form of an integer below 2^32 - 1. Such keys come first, in
    ascending order, among the properties of an object. *)
Definition digit_value (c : ascii) : option N :=
  let n := nat_of_ascii c in
  if Nat.leb 48 n && Nat.leb n 57 then Some (N.of_nat (n - 48)) else None.

Fixpoint digits_value (acc : N) (s : string) : option N :=
  match s with
  | EmptyString => Some acc
  | String c s' =>
      match digit_value c with
      | Some d => digits_value (10 * acc + d) s'
      | None => None
      end
  end.

Definition array_index (k : string) : option N :=
  match k with
  | EmptyString => None
  | String c rest =>
      match digit_value c with
      | None => None
      | Some d =>
          if N.eqb d 0 then
            match rest with
            | EmptyString => Some 0%N
            | _ => None
            end
          else
            match digits_value d rest with
            | Some n => if N.ltb n 4294967295 then Some n else None
            | None => None
            end
      end
  end.

(** Whether a new key [k] is enumerated before the existing key [k']. *)
Definition precedes (k k' : string) : bool :=
  match array_index k, array_index k' with
  | Some i, Some j => N.ltb i j
  | Some _, None => true
  | None, _ => false
  end.

(** [rows.pop()]: the element removed from the end of the array
    ([undefined] when the array is empty), and the array that is left. *)
Definition pop_value (rows : list string) : option string :=
  match rows with
  | [] => None
  | row :: rows' => Some (last rows' row)
  end.

Definition pop_rest (rows : list string) : list string := removelast rows.

(* ================================================================== *)
(** * Values in the runtime *)

Section Values.
Context {RT : Runtime}.

Local Abbreviation Val := (JsVal Number).

(** Whether the conversion of [v] to a primitive returns. For an
    object it goes through [valueOf] and [toString], in either order:
    the inherited [valueOf] returns the object itself, an own member is
    never callable in a value of [JSON.parse], so the conversion throws
    a TypeError exactly when the object has an own [toString]. An
    array converts through [join], which converts its elements. *)
Fixpoint converts (v : Val) : bool :=
  match v with
  | VObj props => negb (existsb (fun kv => String.eqb (fst kv) "toString") props)
  | VArr items => forallb converts items
  | _ => true
  end.

(** [String(v)], the conversion behind [s + v] for a string [s] and
    behind [o[v]], for a [v] that [converts]: where it does not, the
    code throws and this string is never used. *)
Fixpoint ToString (v : Val) : string :=
  match v with
  | VUndefined => "undefined"
  | VNull => "null"
  | VBool true => "true"
  | VBool false => "false"
  | VNum n => number_to_string n
  | VStr s => s
  | VArr items =>
      (fix join (l : list Val) : string :=
         match l with
         | [] => ""
         | x :: rest =>
             let sx := match x with
                       | VUndefined | VNull => ""
                       | _ => ToString x
                       end in
             match rest with
             | [] => sx
             | _ => sx +++ "," +++ join rest
             end
         end) items
  | VObj _ => "[object Object]"
  | VError "" => "Error"
  | VError message => "Error: " +++ message
  end.

(** Truthiness, as [if (v)], [!v] and [v || w] test it. *)
Definition truthy (v : Val) : bool :=
  match v with
  | VUndefined | VNull => false
  | VBool b => b
  | VNum n => number_truthy n
  | VStr s => negb (String.eqb s "")
  | VArr _ | VObj _ | VError _ => true
  end.

(** [v ?? w]. *)
Definition nullish_or (v w : Val) : Val :=
  match v with
  | VUndefined | VNull => w
  | _ => v
  end.

(** [v || w]. *)
Definition js_or (v w : Val) : Val := if truthy v then v else w.

(** [s + v] where [s] is a string and [v] [converts]: the
    concatenation of [s] and [String(v)]. *)
Definition js_concat (s : string) (v : Val) : string := s +++ ToString v.

(** [v === s] for a string literal [s]. *)
Definition is_string (v : Val) (s : string) : bool :=
  match v with
  | VStr s' => String.eqb s' s
  | _ => false
  end.

(** [result instanceof Error]. *)
Definition instanceof_Error (v : Val) : bool :=
  match v with
  | VError _ => true
  | _ => false
  end.

(** Own properties of an object: read (a missing key reads as
    [undefined]) and write (an existing key keeps its place, a new key
    that is an array index goes among the indices in ascending order,
    any other new key goes last). *)
Fixpoint obj_get (props : list (string * Val)) (k : string) : Val :=
  match props with
  | [] => VUndefined
  | (k', v) :: rest => if String.eqb k' k then v else obj_get rest k
  end.

Definition has_key (props : list (string * Val)) (k : string) : bool :=
  existsb (fun kv => String.eqb (fst kv) k) props.

Fixpoint obj_set (props : list (string * Val)) (k : string) (v : Val)
  : list (string * Val) :=
  match props with
  | [] => [(k, v)]
  | (k', v') :: rest =>
      if String.eqb k' k then (k, v) :: rest
      else if precedes k k' && negb (has_key rest k) then (k, v) :: props
      else (k', v') :: obj_set rest k v
  end.

(** [v.k] for a key [k] that no built-in prototype defines: [None] is
    the TypeError of reading a property of [null] or [undefined]. *)
Definition member (v : Val) (k : string) : option Val :=
  match v with
  | VUndefined | VNull => None
  | VObj props => Some (obj_get props k)
  | _ => Some VUndefined
  end.

End Values.

(* ================================================================== *)
(** * Options, presets and the constructor *)

(** A property of an options object: missing, present and [undefined],
    or present with a value. Object spread copies the last two alike. *)
Inductive field (A : Type) : Type :=
| Absent
| Undef
| Has (a : A).

Arguments Absent {A}.
Arguments Undef {A}.
Arguments Has {A} a.

(** Reading [o.k]: [None] stands for [undefined]. *)
Definition read {A : Type} (f : field A) : option A :=
  match f with
  | Has a => Some a
  | _ => None
  end.

Definition present {A : Type} (f : field A) : bool :=
  match f with
  | Absent => false
  | _ => true
  end.

(** One key of [{...a, ...b}]. *)
Definition spread_field {A : Type} (a b : field A) : field A :=
  match b with
  | Absent => a
  | _ => b
  end.

Inductive ChunkType := CT_json | CT_text.
Inductive OutputType := OT_text | OT_obj.

Section Options.
Context {RT : Runtime}.

Local Abbreviation Val := (JsVal Number).

(** The context object handed to the custom parser, [{}] at first. *)
Definition ParseContext : Type := list (string * Val).

(** [(chunk, context) => any]: [None] when the call throws, otherwise
    the returned value and the context as the call left it. When the
    parser returns the context object itself, the value is that object
    with the properties it has at the time of the return. *)
Definition ChunkParser : Type :=
  string -> ParseContext -> option (Val * ParseContext).

(** [interface ParserOption]. [validateChunk] returns [None] for
    [undefined] and the message of the [Error] otherwise. *)
Record ParserOption : Type := {
  chunkParser : field ChunkParser;
  chunkType : field ChunkType;
  contentPath : field string;
  autoConcat : field bool;
  outputType : field OutputType;
  validateChunk : field (string -> option string)
}.

(** [{...a, ...b}] *)
Definition spread (a b : ParserOption) : ParserOption := {|
  chunkParser := spread_field (chunkParser a) (chunkParser b);
  chunkType := spread_field (chunkType a) (chunkType b);
  contentPath := spread_field (contentPath a) (contentPath b);
  autoConcat := spread_field (autoConcat a) (autoConcat b);
  outputType := spread_field (outputType a) (outputType b);
  validateChunk := spread_field (validateChunk a) (validateChunk b)
|}.

(** [{}], also what spreading [undefined] contributes. *)
Definition no_options : ParserOption := {|
  chunkParser := Absent; chunkType := Absent; contentPath := Absent;
  autoConcat := Absent; outputType := Absent; validateChunk := Absent
|}.

(** [const defaultOptions] *)
Definition defaultOptions : ParserOption := {|
  chunkParser := Absent;
  chunkType := Has CT_json;
  contentPath := Has "content";
  autoConcat := Has true;
  outputType := Absent;
  validateChunk := Absent
|}.

(** [PRESETS.DeepSeek.chunkParser]. The content is converted to a
    property key and, by [+=], to a string: both throw for a content
    that does not convert. The context is read through its own
    properties, which hold only what this function stored, so the left
    operand of [+=] is a string; a key that names a member of
    [Object.prototype] would find that member instead and is outside
    this embedding. *)
Definition DeepSeek_chunkParser : ChunkParser := fun chunk context =>
  match JSON_parse (trim chunk) with
  | None => None
  | Some obj =>
      let chunkType := get obj "choices[0].delta.content" in
      if truthy chunkType then
        if negb (converts chunkType) then None else
        let key := ToString chunkType in
        let context1 :=
          if negb (truthy (obj_get context key))
          then obj_set context key (VStr "") else context in
        let context2 :=
          obj_set context1 key
            (VStr (js_concat (ToString (obj_get context1 key)) chunkType)) in
        Some (VObj context2, context2)
      else Some (VObj context, context)
  end.

(** [obj.data.title || context.current] and its like: [path] is read
    from [obj] one member at a time. *)
Fixpoint members (v : Val) (path : list string) : option Val :=
  match path with
  | [] => Some v
  | k :: path' =>
      match member v k with
      | None => None
      | Some v' => members v' path'
      end
  end.

Definition DifyApp_update (obj : Val) (path : list string)
    (context : ParseContext) : option ParseContext :=
  match members obj path with
  | None => None
  | Some v => Some (obj_set context "current" (js_or v (obj_get context "current")))
  end.

(** [PRESETS.DifyApp.chunkParser] *)
Definition DifyApp_chunkParser : ChunkParser := fun chunk context =>
  match JSON_parse (trim chunk) with
  | None => None
  | Some parsed =>
      let obj := js_or parsed (VObj []) in
      let finish (c : option ParseContext) :=
        match c with
        | None => None
        | Some context' => Some (obj_get context' "current", context')
        end in
      match member obj "event" with
      | None => None
      | Some event =>
          let started :=
            if is_string event "node_started" then
              match members obj ["data"; "node_type"] with
              | None => None
              | Some node_type => Some (negb (is_string node_type "start"))
              end
            else Some false in
          match started with
          | None => None
          | Some true => finish (DifyApp_update obj ["data"; "title"] context)
          | Some false =>
              if is_string event "iteration_started"
                 || is_string event "iteration_next"
              then finish (DifyApp_update obj ["data"; "title"] context)
              else if is_string event "node_finished"
              then finish (DifyApp_update obj ["data"; "outputs"; "output"] context)
              else finish (Some context)
          end
      end
  end.

Inductive PresetName := OpenAi | DeepSeek | Dify | DifyApp.

(** [const PRESETS] *)
Definition PRESETS (name : PresetName) : ParserOption :=
  match name with
  | OpenAi => {|
      chunkParser := Absent;
      chunkType := Has CT_json;
      contentPath := Has "choices[0].delta.content";
      autoConcat := Has true;
      outputType := Has OT_text;
      validateChunk := Absent |}
  | DeepSeek => {|
      chunkParser := Has DeepSeek_chunkParser;
      chunkType := Absent; contentPath := Absent; autoConcat := Absent;
      outputType := Absent; validateChunk := Absent |}
  | Dify => {|
      chunkParser := Absent;
      chunkType := Has CT_json;
      contentPath := Has "answer";
      autoConcat := Has true;
      outputType := Has OT_text;
      validateChunk := Absent |}
  | DifyApp => {|
      chunkParser := Has DifyApp_chunkParser;
      chunkType := Absent; contentPath := Absent; autoConcat := Absent;
      outputType := Absent; validateChunk := Absent |}
  end.

(** [class Parser] and its constructor. *)
Record Parser : Type := { options : ParserOption }.

Definition new_Parser (options : ParserOption) : Parser :=
  {| options := spread defaultOptions options |}.

(** [static PRESETS]: one factory per preset. *)
Definition Parser_PRESETS (name : PresetName) (options : ParserOption) : Parser :=
  new_Parser (spread options (PRESETS name)).

End Options.

(* ================================================================== *)
(** * [Parser.parse] *)

Section Parse.
Context {RT : Runtime}.

Local Abbreviation Val := (JsVal Number).

(** What one [await reader.read()] resolves to, or its rejection. *)
Inductive ReadResult : Type :=
| Read (done : bool) (value : option (list byte))
| ReadRejected.

(** The observable effects of the generator. A call of the custom
    parser is recorded with its argument and with the value it returned
    ([None] when it threw). *)
Inductive Event : Type :=
| ERead
| ECall (data : string) (result : option Val)
| EYield (v : Val).

(** How the body of the [for] loop leaves: on to the next row, by the
    [return] after an [Error], or by an exception that the enclosing
    [catch] receives. *)
Inductive Flow := Next | Return | Throw.

(** The text extracted from one payload by the built-in path
    ([let chunkContent] up to the end of the [try]). *)
Definition chunkContent (o : ParserOption) (data : string) : Val :=
  match read (chunkType o) with
  | Some CT_text => VStr data
  | _ =>
      match JSON_parse (trim data) with
      | Some chunk =>
          let path := match read (contentPath o) with
                      | Some p => p
                      | None => ""
                      end in
          nullish_or (get chunk path) (VStr "")
      | None => VStr ""
      end
  end.

(** Whether [output + chunkContent] is evaluated and throws: it lies
    after the inner [try], so the exception goes to the outer [catch]. *)
Definition concat_throws (o : ParserOption) (content : Val) : bool :=
  match read (autoConcat o) with
  | Some true => negb (converts content)
  | _ => false
  end.

(** [if (this.options.autoConcat)]: the new [output] and [outputText],
    when the concatenation does not throw. *)
Definition concat_output (o : ParserOption) (output : string) (content : Val)
  : string * Val :=
  match read (autoConcat o) with
  | Some true => let output' := js_concat output content in (output', VStr output')
  | _ => (output, content)
  end.

(** The value yielded for [outputText]. *)
Definition shape (o : ParserOption) (outputText : Val) : Val :=
  match read (outputType o) with
  | Some OT_text => outputText
  | _ => VObj [("text", outputText)]
  end.

(** The body of the [for] loop from [const data] on. *)
Definition process_data (o : ParserOption) (data : string)
    (output : string) (context : ParseContext)
  : list Event * string * ParseContext * Flow :=
  match read (chunkParser o) with
  | Some parser =>
      match parser data context with
      | None => ([ECall data None], output, context, Throw)
      | Some (result, context') =>
          ([ECall data (Some result); EYield result], output, context',
           if instanceof_Error result then Return else Next)
      end
  | None =>
      let content := chunkContent o data in
      if concat_throws o content then ([], output, context, Throw)
      else
        let '(output', outputText) := concat_output o output content in
        ([EYield (shape o outputText)], output', context, Next)
  end.

(** [for (let i = 0; i < rows.length; i++)] *)
Fixpoint process_rows (o : ParserOption) (rows : list string)
    (output : string) (context : ParseContext)
  : list Event * string * ParseContext * Flow :=
  match rows with
  | [] => ([], output, context, Next)
  | row :: rows' =>
      if negb (startsWith row "data:") then process_rows o rows' output context
      else
        let data := substring_from 5 row in
        let '(events, output', context', flow) :=
          process_data o data output context in
        match flow with
        | Next =>
            let '(events', output'', context'', flow') :=
              process_rows o rows' output' context' in
            (events ++ events', output'', context'', flow')
        | _ => (events, output', context', flow)
        end
  end.

(** The variables that live across the iterations of [while (true)]. *)
Record Vars : Type := {
  unfinishedText : string;
  output : string;
  context : ParseContext
}.

Definition initial : Vars :=
  {| unfinishedText := ""; output := ""; context := [] |}.

(** [unfinishedText + (value ? decoder.decode(value) : '')] *)
Definition read_text (unfinishedText : string) (value : option (list byte))
  : string :=
  unfinishedText +++ match value with
                     | Some v => decode v
                     | None => ""
                     end.

(** [let rows = text.split('\n'); if (!done) unfinishedText = rows.pop() || '']:
    the rows to process and the new [unfinishedText]. *)
Definition split_rows (done : bool) (unfinishedText text : string)
  : list string * string :=
  let rows := split_newline text in
  if done then (rows, unfinishedText)
  else (pop_rest rows,
        match pop_value rows with
        | Some EmptyString | None => ""
        | Some row => row
        end).

(** One iteration of [while (true)] once the read has resolved: its
    events, and the variables for the next iteration unless the loop
    is left. *)
Definition iteration (o : ParserOption) (done : bool)
    (value : option (list byte)) (vars : Vars)
  : list Event * option Vars :=
  let text := read_text (unfinishedText vars) value in
  let '(rows, unfinishedText') := split_rows done (unfinishedText vars) text in
  let '(events, output', context', flow) :=
    process_rows o rows (output vars) (context vars) in
  (events,
   match flow with
   | Next =>
       if done then None
       else Some {| unfinishedText := unfinishedText';
                    output := output'; context := context' |}
   | _ => None
   end).

(** [while (true)] inside the [try]: a rejected read and an exception of
    the body end the generator through the [catch]. A reader whose
    script has run out is a closed stream: its [read()] resolves to
    [{done: true, value: undefined}]. *)
Fixpoint read_loop (o : ParserOption) (reader : list ReadResult) (vars : Vars)
  : list Event :=
  match reader with
  | [] => ERead :: fst (iteration o true None vars)
  | ReadRejected :: _ => [ERead]
  | Read done value :: reader' =>
      match iteration o done value vars with
      | (events, Some vars') => ERead :: events ++ read_loop o reader' vars'
      | (events, None) => ERead :: events
      end
  end.

(** [async* parse(reader)] *)
Definition parse (p : Parser) (reader : list ReadResult) : list Event :=
  read_loop (options p) reader initial.

(** The values the consumer of the generator receives. *)
Fixpoint yielded (events : list Event) : list Val :=
  match events with
  | [] => []
  | EYield v :: events' => v :: yielded events'
  | _ :: events' => yielded events'
  end.

(** The number of reads the generator issued. *)
Fixpoint reads (events : list Event) : nat :=
  match events with
  | [] => 0
  | ERead :: events' => S (reads events')
  | _ :: events' => reads events'
  end.

End Parse.

(* ================================================================== *)
(** * The parts of the loop on their own *)

Section Decoder.
Context {RT : Runtime}.

Local Abbreviation Val := (JsVal Number).

(** The line-buffering decoder, lines 110 to 117 of the loop without the
    processing of the rows: all rows the successive iterations hand to
    the [for] loop, in order, as long as no row ends the generator. *)
Fixpoint records_from (reader : list ReadResult) (unfinishedText : string)
  : list string :=
  match reader with
  | [] => fst (split_rows true unfinishedText (read_text unfinishedText None))
  | ReadRejected :: _ => []
  | Read done value :: reader' =>
      let '(rows, unfinishedText') :=
        split_rows done unfinishedText (read_text unfinishedText value) in
      if done then rows else rows ++ records_from reader' unfinishedText'
  end.

Definition records (reader : list ReadResult) : list string :=
  records_from reader "".

(** The rows that carry data, and their payloads. *)
Definition data_rows (rows : list string) : list string :=
  filter (fun row => startsWith row "data:") rows.

Definition payloads (rows : list string) : list string :=
  map (substring_from 5) (data_rows rows).

(** The [for] loop run over payloads instead of rows. *)
Fixpoint process_payloads (o : ParserOption) (datas : list string)
    (output : string) (context : ParseContext)
  : list Event * string * ParseContext * Flow :=
  match datas with
  | [] => ([], output, context, Next)
  | data :: datas' =>
      let '(events, output', context', flow) :=
        process_data o data output context in
      match flow with
      | Next =>
          let '(events', output'', context'', flow') :=
            process_payloads o datas' output' context' in
          (events ++ events', output'', context'', flow')
      | _ => (events, output', context', flow)
      end
  end.

(** The fragments the built-in path extracts from the rows. *)
Definition fragments (o : ParserOption) (rows : list string) : list Val :=
  map (chunkContent o) (payloads rows).

(** The values of the built-in path, one per payload, starting from
    the accumulated [output], up to the first payload whose fragment
    makes the concatenation throw. *)
Fixpoint builtin_values (o : ParserOption) (output : string)
    (datas : list string) : list Val :=
  match datas with
  | [] => []
  | data :: datas' =>
      let content := chunkContent o data in
      if concat_throws o content then []
      else
        let '(output', outputText) := concat_output o output content in
        shape o outputText :: builtin_values o output' datas'
  end.


(** The data rows before the first one whose fragment makes the
    concatenation throw: the rows the built-in path gets to. *)
Fixpoint reached (o : ParserOption) (rows : list string) : list string :=
  match rows with
  | [] => []
  | row :: rows' =>
      if concat_throws o (chunkContent o (substring_from 5 row)) then []
      else row :: reached o rows'
  end.

(** [output] once the payloads have been processed, from [''] *)
Definition running_output (o : ParserOption) (datas : list string) : string :=
  fold_left (fun output data => fst (concat_output o output (chunkContent o data)))
    datas "".

(** [f1 + ... + fk] as the running [output] builds it from [''] *)
Definition concat_fragments (fs : list Val) : string :=
  fold_left js_concat fs "".

(** A buffer read before the end of the stream, and the end. *)
Definition chunk (value : list byte) : ReadResult := Read false (Some value).
Definition end_of_stream : ReadResult := Read true None.

(** The events other than reads. *)
Fixpoint effects (events : list Event) : list Event :=
  match events with
  | [] => []
  | ERead :: events' => effects events'
  | e :: events' => e :: effects events'
  end.

(** The text a sequence of buffers decodes to, buffer by buffer. *)
Fixpoint texts (values : list (list byte)) : string :=
  match values with
  | [] => ""
  | value :: values' => decode value +++ texts values'
  end.

(** The events of a run of the [for] loop. *)
Definition events_of (r : list Event * string * ParseContext * Flow)
  : list Event :=
  fst (fst (fst r)).

(** The text of a value of the built-in path, which is a string or an
    object that wraps one under [text]. *)
Definition emitted_text (v : Val) : option string :=
  match v with
  | VStr s => Some s
  | VObj [(key, VStr s)] => if String.eqb key "text" then Some s else None
  | _ => None
  end.

(** The options with [validateChunk] replaced. *)
Definition set_validateChunk (f : field (string -> option string))
    (o : ParserOption) : ParserOption := {|
  chunkParser := chunkParser o;
  chunkType := chunkType o;
  contentPath := contentPath o;
  autoConcat := autoConcat o;
  outputType := outputType o;
  validateChunk := f
|}.

(** Precedence among the three sources of a key as the specification
    words it: the preset, else the caller, else the default. *)
Definition precedence {A : Type} (preset caller default : field A) : field A :=
  if present preset then preset
  else if present caller then caller
  else default.

End Decoder.

(* ================================================================== *)
(** * The custom path on its own *)

Section CustomPath.
Context {RT : Runtime}.

Local Abbreviation Val := (JsVal Number).

(** The custom parser folded over payloads: each call gets the context
    the previous call left, its value is yielded, and the run ends with
    the first call that throws or returns an [Error]. *)
Fixpoint custom_run (parser : ChunkParser) (context : ParseContext)
    (datas : list string) : list Event :=
  match datas with
  | [] => []
  | data :: datas' =>
      match parser data context with
      | None => [ECall data None]
      | Some (result, context') =>
          ECall data (Some result) :: EYield result
          :: (if instanceof_Error result then []
              else custom_run parser context' datas')
      end
  end.

(** [s] written [n] times. *)
Fixpoint repeat_string (s : string) (n : nat) : string :=
  match n with
  | O => ""
  | S n' => repeat_string s n' +++ s
  end.

(** What [PRESETS.DeepSeek.chunkParser] keeps true of its context:
    every key holds the key itself, written once or more. *)
Definition keyed_by_content (context : ParseContext) : Prop :=
  forall key : string,
    obj_get context key = VUndefined
    \/ exists n : nat, obj_get context key = VStr (repeat_string key (S n)).

(** The names that an object literal inherits from [Object.prototype]:
    reading one of them from [{}] finds the inherited member, not
    [undefined]. *)
Definition Object_prototype_keys : list string :=
  ["constructor"; "__defineGetter__"; "__defineSetter__"; "hasOwnProperty";
   "__lookupGetter__"; "__lookupSetter__"; "isPrototypeOf";
   "propertyIsEnumerable"; "toString"; "valueOf"; "__proto__";
   "toLocaleString"].

(** A payload whose DeepSeek content, as a property key, is none of
    these names (a payload that is not JSON has no content). *)
Definition plain_content (data : string) : bool :=
  match JSON_parse (trim data) with
  | Some obj =>
      negb (existsb (String.eqb (ToString (get obj "choices[0].delta.content")))
              Object_prototype_keys)
  | None => true
  end.

(** A value that is no object and no array: [String(v)] cannot throw
    for it. *)
Definition is_primitive (v : Val) : bool :=
  match v with
  | VObj _ | VArr _ => false
  | _ => true
  end.

(** The payloads that the DeepSeek parser files under [key]: those
    whose content is truthy and has [key] as its string; how many of
    them a list holds; and what the context holds under a key that [n]
    records were filed under. *)
Definition files_under (key : string) (data : string) : bool :=
  match JSON_parse (trim data) with
  | Some obj =>
      let content := get obj "choices[0].delta.content" in
      truthy content && String.eqb (ToString content) key
  | None => false
  end.

Definition filed (key : string) (datas : list string) : nat :=
  List.length (filter (files_under key) datas).

Definition filed_value (key : string) (n : nat) : Val :=
  match n with
  | O => VUndefined
  | S _ => VStr (repeat_string key n)
  end.

(** The member an event proposes as the new [current] of the DifyApp
    context, as the specification lists them: [data.title] for a node
    that starts and is not of type [start], and for an iteration that
    starts or moves on; [data.outputs.output] for a node that
    finishes; none for any other event. *)
Definition DifyApp_candidate (obj : Val) : option (list string) :=
  let event := match member obj "event" with
               | Some e => e
               | None => VUndefined
               end in
  let node_type := match members obj ["data"; "node_type"] with
                   | Some t => t
                   | None => VUndefined
                   end in
  if is_string event "node_started" && negb (is_string node_type "start")
  then Some ["data"; "title"]
  else if is_string event "iteration_started" || is_string event "iteration_next"
  then Some ["data"; "title"]
  else if is_string event "node_finished"
  then Some ["data"; "outputs"; "output"]
  else None.

(** The presets that carry a [chunkParser]. *)
Definition preset_parser (name : PresetName) : option ChunkParser :=
  read (chunkParser (PRESETS name)).

(** The options that set nothing but [chunkParser]. *)
Definition only_chunkParser (parser : ChunkParser) : ParserOption := {|
  chunkParser := Has parser; chunkType := Absent; contentPath := Absent;
  autoConcat := Absent; outputType := Absent; validateChunk := Absent
|}.

End CustomPath.

(* ================================================================== *)
(** * A runtime to run the embedding on

    An instance of [Runtime] for the examples: buffers of 8-bit
    characters, integers as numbers, [JSON.parse] on the part of JSON
    the examples use (no escapes in strings, no fractions or exponents:
    those texts are rejected), and radash's [get] on objects and
    arrays. *)

Module Sample.

Definition dquote : ascii := ascii_of_nat 34.
Definition backslash : ascii := ascii_of_nat 92.

Definition json_space (c : ascii) : bool :=
  let n := nat_of_ascii c in
  Nat.eqb n 32 || Nat.eqb n 9 || Nat.eqb n 10 || Nat.eqb n 13.

Fixpoint skip_space (s : string) : string :=
  match s with
  | String c s' => if json_space c then skip_space s' else s
  | EmptyString => s
  end.

(** [s] without the prefix [p], if it has it. *)
Fixpoint strip (p s : string) : option string :=
  match p with
  | EmptyString => Some s
  | String c p' =>
      match s with
      | String d s' => if Ascii.eqb c d then strip p' s' else None
      | EmptyString => None
      end
  end.

(** The characters of a string literal after its opening quote. *)
Fixpoint read_string (s : string) : option (string * string) :=
  match s with
  | EmptyString => None
  | String c s' =>
      if Ascii.eqb c dquote then Some (EmptyString, s')
      else if Ascii.eqb c backslash || Nat.ltb (nat_of_ascii c) 32 then None
      else match read_string s' with
           | Some (t, rest) => Some (String c t, rest)
           | None => None
           end
  end.

Definition digit (c : ascii) : option Z :=
  let n := nat_of_ascii c in
  if Nat.leb 48 n && Nat.leb n 57 then Some (Z.of_nat (n - 48)) else None.

Fixpoint read_digits (acc : Z) (s : string) : Z * string :=
  match s with
  | String c s' =>
      match digit c with
      | Some d => read_digits (10 * acc + d) s'
      | None => (acc, s)
      end
  | EmptyString => (acc, s)
  end.

(** What may not follow an integer: a further digit after a leading
    zero, a fraction or an exponent. *)
Definition ends_number (s : string) : bool :=
  match s with
  | String c _ =>
      match digit c with
      | Some _ => false
      | None => negb (Ascii.eqb c "." || Ascii.eqb c "e" || Ascii.eqb c "E")
      end
  | EmptyString => true
  end.

Definition read_natural (s : string) : option (Z * string) :=
  match s with
  | String c s' =>
      match digit c with
      | Some d =>
          let '(n, rest) := if Z.eqb d 0 then (0%Z, s') else read_digits d s' in
          if ends_number rest then Some (n, rest) else None
      | None => None
      end
  | EmptyString => None
  end.

Definition read_number (s : string) : option (Z * string) :=
  match s with
  | String "-" s' =>
      match read_natural s' with
      | Some (n, rest) => Some ((- n)%Z, rest)
      | None => None
      end
  | _ => read_natural s
  end.

Definition opens (c : ascii) (s : string) : option string :=
  match s with
  | String d s' => if Ascii.eqb c d then Some s' else None
  | EmptyString => None
  end.

(** A member in front of the members that follow it in the text: a
    later member of the same key gives the value, the first one the
    place. *)
Fixpoint later_value (key : string) (props : list (string * JsVal Z))
  : option (JsVal Z) :=
  match props with
  | [] => None
  | (k, v) :: props' => if String.eqb k key then Some v else later_value key props'
  end.

Definition add_member (key : string) (v : JsVal Z)
    (props : list (string * JsVal Z)) : list (string * JsVal Z) :=
  match later_value key props with
  | Some v' =>
      (key, v') :: filter (fun kv => negb (String.eqb (fst kv) key)) props
  | None => (key, v) :: props
  end.

Fixpoint read_value (fuel : nat) (s : string) {struct fuel}
  : option (JsVal Z * string) :=
  match fuel with
  | O => None
  | S fuel' =>
      let s := skip_space s in
      match strip "null" s, strip "true" s, strip "false" s with
      | Some rest, _, _ => Some (VNull, rest)
      | _, Some rest, _ => Some (VBool true, rest)
      | _, _, Some rest => Some (VBool false, rest)
      | _, _, _ =>
          match opens dquote s, opens "[" s, opens "{" s with
          | Some rest, _, _ =>
              match read_string rest with
              | Some (t, rest') => Some (VStr t, rest')
              | None => None
              end
          | _, Some rest, _ =>
              match opens "]" (skip_space rest) with
              | Some rest' => Some (VArr [], rest')
              | None =>
                  match read_items fuel' rest with
                  | Some (items, rest') => Some (VArr items, rest')
                  | None => None
                  end
              end
          | _, _, Some rest =>
              match opens "}" (skip_space rest) with
              | Some rest' => Some (VObj [], rest')
              | None =>
                  match read_members fuel' rest with
                  | Some (props, rest') => Some (VObj props, rest')
                  | None => None
                  end
              end
          | _, _, _ =>
              match read_number s with
              | Some (n, rest) => Some (VNum n, rest)
              | None => None
              end
          end
      end
  end
with read_items (fuel : nat) (s : string) {struct fuel}
  : option (list (JsVal Z) * string) :=
  match fuel with
  | O => None
  | S fuel' =>
      match read_value fuel' s with
      | Some (v, rest) =>
          let rest := skip_space rest in
          match opens "," rest, opens "]" rest with
          | Some rest', _ =>
              match read_items fuel' rest' with
              | Some (items, rest'') => Some (v :: items, rest'')
              | None => None
              end
          | _, Some rest' => Some ([v], rest')
          | _, _ => None
          end
      | None => None
      end
  end
with read_members (fuel : nat) (s : string) {struct fuel}
  : option (list (string * JsVal Z) * string) :=
  match fuel with
  | O => None
  | S fuel' =>
      match opens dquote (skip_space s) with
      | Some rest =>
          match read_string rest with
          | Some (key, rest) =>
              match opens ":" (skip_space rest) with
              | Some rest =>
                  match read_value fuel' rest with
                  | Some (v, rest) =>
                      let rest := skip_space rest in
                      match opens "," rest, opens "}" rest with
                      | Some rest', _ =>
                          match read_members fuel' rest' with
                          | Some (props, rest'') =>
                              Some (add_member key v props, rest'')
                          | None => None
                          end
                      | _, Some rest' => Some ([(key, v)], rest')
                      | _, _ => None
                      end
                  | None => None
                  end
              | None => None
              end
          | None => None
          end
      | None => None
      end
  end.

(** [JSON.parse(s)] *)
Definition json_parse (s : string) : option (JsVal Z) :=
  match read_value (S (String.length s)) s with
  | Some (v, rest) =>
      match skip_space rest with
      | EmptyString => Some v
      | _ => None
      end
  | None => None
  end.

(** [path.split(/[\.\[\]]/g)] *)
Definition path_separator (c : ascii) : bool :=
  Ascii.eqb c "." || Ascii.eqb c "[" || Ascii.eqb c "]".

Fixpoint split_path (path : string) : list string :=
  match path with
  | EmptyString => [EmptyString]
  | String c path' =>
      if path_separator c then EmptyString :: split_path path'
      else match split_path path' with
           | [] => [String c EmptyString]
           | key :: keys => String c key :: keys
           end
  end.

(** The key without its single and double quote characters. *)
Fixpoint dequote (key : string) : string :=
  match key with
  | EmptyString => EmptyString
  | String c key' =>
      if Ascii.eqb c dquote || Ascii.eqb c "'" then dequote key'
      else String c (dequote key')
  end.

(** The index a key names, if it is the decimal form of one. *)
Definition index_of (key : string) : option nat :=
  match read_natural key with
  | Some (n, EmptyString) => Some (Z.to_nat n)
  | _ => None
  end.

Fixpoint own (props : list (string * JsVal Z)) (key : string) : JsVal Z :=
  match props with
  | [] => VUndefined
  | (k, v) :: props' => if String.eqb k key then v else own props' key
  end.

(** [current[key]] on what [json_parse] returns: own properties of
    objects and elements of arrays. *)
Definition at_key (current : JsVal Z) (key : string) : JsVal Z :=
  match current with
  | VObj props => own props key
  | VArr items =>
      match index_of key with
      | Some i => nth i items VUndefined
      | None => VUndefined
      end
  | _ => VUndefined
  end.

Fixpoint get_segments (current : JsVal Z) (segments : list string) : JsVal Z :=
  match segments with
  | [] => current
  | key :: segments' =>
      match current with
      | VNull | VUndefined => VUndefined
      | _ =>
          let dequoted := dequote key in
          match trim dequoted with
          | EmptyString => get_segments current segments'
          | _ => get_segments (at_key current dequoted) segments'
          end
      end
  end.

(** radash [get(value, path)] *)
Definition radash_get (value : JsVal Z) (path : string) : JsVal Z :=
  get_segments value (split_path path).

Definition runtime : Runtime := {|
  Number := Z;
  number_to_string := fun n => NilZero.string_of_int (Z.to_int n);
  number_truthy := fun n => negb (Z.eqb n 0);
  decode := string_of_list_byte;
  JSON_parse := json_parse;
  get := radash_get
|}.

(** The buffer that holds the characters of [s]. *)
Definition bytes (s : string) : list byte := list_byte_of_string s.

(** [s] between double quotes, and [s] closed by a newline. *)
Definition quoted (s : string) : string :=
  String dquote (s +++ String dquote EmptyString).

Definition line (s : string) : string := s +++ String newline EmptyString.

(** The JSON text of an object with the one string member [key]. *)
Definition json_member (key value : string) : string :=
  "{" +++ quoted key +++ ":" +++ quoted value +++ "}".

(** The JSON text of an OpenAI delta that carries [content]. *)
Definition openai_delta (content : string) : string :=
  "{" +++ quoted "choices" +++ ":[{" +++ quoted "delta" +++ ":"
  +++ json_member "content" content +++ "}]}".

(** [{chunkType: 'text'}] and [{chunkType: 'json'}] *)
Definition text_options : @ParserOption runtime := {|
  chunkParser := Absent; chunkType := Has CT_text; contentPath := Absent;
  autoConcat := Absent; outputType := Absent; validateChunk := Absent
|}.

Definition json_options : @ParserOption runtime := {|
  chunkParser := Absent; chunkType := Has CT_json; contentPath := Absent;
  autoConcat := Absent; outputType := Absent; validateChunk := Absent
|}.

(** A custom parser that returns an [Error] for the payload [bad] and
    the payload itself otherwise, and the options that configure it. *)
Definition rejecting_parser : @ChunkParser runtime := fun chunk context =>
  if String.eqb chunk "bad" then Some (VError "bad chunk", context)
  else Some (VStr chunk, context).

Definition rejecting_options : @ParserOption runtime := {|
  chunkParser := Has rejecting_parser; chunkType := Absent;
  contentPath := Absent; autoConcat := Absent; outputType := Absent;
  validateChunk := Absent
|}.

(** A [validateChunk] that rejects every chunk. *)
Definition reject_all : string -> option string := fun _ => Some "rejected".

End Sample.

(** Streams and options for the runs on the sample runtime. *)
Module Scenarios.

Import Sample.

(** The JSON text of an object whose members are given as key and JSON
    text of the value. *)
Fixpoint json_members (members : list (string * string)) : string :=
  match members with
  | [] => ""
  | [(key, value)] => quoted key +++ ":" +++ value
  | (key, value) :: members' =>
      quoted key +++ ":" +++ value +++ "," +++ json_members members'
  end.

Definition json_object (members : list (string * string)) : string :=
  "{" +++ json_members members +++ "}".

(** Dify workflow events. *)
Definition node_started (node_type title : string) : string :=
  json_object
    [("event", quoted "node_started");
     ("data", json_object [("node_type", quoted node_type);
                           ("title", quoted title)])].

Definition node_finished (output : string) : string :=
  json_object
    [("event", quoted "node_finished");
     ("data", json_object [("outputs", json_object [("output", quoted output)])])].

Definition ping : string := json_object [("event", quoted "ping")].

(** One buffer that holds the given lines, then the end. *)
Definition stream (lines : list string) : list (@ReadResult) :=
  [chunk (bytes (String.concat "" (map line lines))); end_of_stream].

(** [{autoConcat: false}], [{autoConcat: undefined}] and
    [{contentPath: 'answer', outputType: 'obj'}] *)
Definition standalone_options : @ParserOption runtime := {|
  chunkParser := Absent; chunkType := Absent; contentPath := Absent;
  autoConcat := Has false; outputType := Has OT_text; validateChunk := Absent
|}.

Definition undefined_autoConcat : @ParserOption runtime := {|
  chunkParser := Absent; chunkType := Absent; contentPath := Absent;
  autoConcat := Undef; outputType := Has OT_text; validateChunk := Absent
|}.

Definition answer_options : @ParserOption runtime := {|
  chunkParser := Absent; chunkType := Absent; contentPath := Has "answer";
  autoConcat := Has false; outputType := Has OT_obj; validateChunk := Absent
|}.

(** The options of [rejecting_options] with every other key set. *)
Definition rejecting_options_full : @ParserOption runtime := {|
  chunkParser := Has rejecting_parser; chunkType := Has CT_text;
  contentPath := Has "answer"; autoConcat := Has false;
  outputType := Has OT_obj; validateChunk := Has reject_all
|}.

(** A record whose content is an object with an own [toString]. *)
Definition unconvertible : string :=
  json_object [("content", json_object [("toString", "1")])].

End Scenarios.

(* ================================================================== *)
(** * A runtime with a UTF-8 decoder

    An instance of [Runtime] whose [decode] is the UTF-8 decoder of the
    Encoding standard as [new TextDecoder().decode(v)] runs it: from
    its initial state on every buffer, a sequence left unfinished at the
    end of the buffer gives U+FFFD, an ill-formed byte gives U+FFFD, and a
    byte order mark at the start is dropped. The text is kept in its
    UTF-8 form, in which U+FFFD is the three bytes EF BF BD; the line
    feed and the prefix [data:] are single bytes in it. *)

Module Utf8.

Definition replacement : string :=
  String (ascii_of_nat 239) (String (ascii_of_nat 191)
    (String (ascii_of_nat 189) EmptyString)).

Definition in_range (lower upper n : nat) : bool :=
  Nat.leb lower n && Nat.leb n upper.

(** A byte met while no sequence is open. [continue] decodes what
    follows, given the bytes of the open sequence, how many more it
    needs and the bounds of the next one. *)
Definition lead (n : nat) (continue : string -> nat -> nat -> nat -> string)
  : string :=
  let c := String (ascii_of_nat n) EmptyString in
  if Nat.leb n 127 then c +++ continue EmptyString 0 128 191
  else if in_range 194 223 n then continue c 1 128 191
  else if in_range 224 239 n then
    continue c 2 (if Nat.eqb n 224 then 160 else 128)
                 (if Nat.eqb n 237 then 159 else 191)
  else if in_range 240 244 n then
    continue c 3 (if Nat.eqb n 240 then 144 else 128)
                 (if Nat.eqb n 244 then 143 else 191)
  else replacement +++ continue EmptyString 0 128 191.

Fixpoint decode_from (pending : string) (needed lower upper : nat)
    (input : list byte) : string :=
  match input with
  | [] =>
      match needed with
      | O => EmptyString
      | S _ => replacement
      end
  | b :: rest =>
      let n := Byte.to_nat b in
      let continue := fun p nd lo hi => decode_from p nd lo hi rest in
      match needed with
      | O => lead n continue
      | S needed' =>
          if in_range lower upper n then
            let pending' := pending +++ String (ascii_of_nat n) EmptyString in
            match needed' with
            | O => pending' +++ continue EmptyString 0 128 191
            | S _ => continue pending' needed' 128 191
            end
          else replacement +++ lead n continue
      end
  end.

(** The text without a byte order mark at its start. *)
Definition strip_bom (text : string) : string :=
  match text with
  | String a (String b (String c rest)) =>
      if Nat.eqb (nat_of_ascii a) 239 && Nat.eqb (nat_of_ascii b) 187
         && Nat.eqb (nat_of_ascii c) 191
      then rest else text
  | _ => text
  end.

Definition decode_utf8 (input : list byte) : string :=
  strip_bom (decode_from EmptyString 0 128 191 input).

Definition runtime : Runtime := {|
  Number := Z;
  number_to_string := fun n => NilZero.string_of_int (Z.to_int n);
  number_truthy := fun n => negb (Z.eqb n 0);
  decode := decode_utf8;
  JSON_parse := Sample.json_parse;
  get := Sample.radash_get
|}.

(** [{chunkType: 'text', outputType: 'text'}] *)
Definition text_options : @ParserOption runtime := {|
  chunkParser := Absent; chunkType := Has CT_text; contentPath := Absent;
  autoConcat := Absent; outputType := Has OT_text; validateChunk := Absent
|}.

(** The letter e with an acute accent, U+00E9, in UTF-8: C3 A9. *)
Definition e_acute : string :=
  String (ascii_of_nat 195) (String (ascii_of_nat 169) EmptyString).

(** The bytes of the line [data:] followed by that letter. *)
Definition e_acute_line : list byte :=
  list_byte_of_string (Sample.line ("data:" +++ e_acute)).

End Utf8.

(* ================================================================== *)
(** * Strings and lists *)

Lemma append_empty_r (s : string) : s +++ "" = s.
Proof. induction s as [|c s IH]; simpl; [reflexivity | now rewrite IH]. Qed.

Lemma append_assoc (a b c : string) : (a +++ b) +++ c = a +++ b +++ c.
Proof. induction a as [|x a IH]; simpl; [reflexivity | now rewrite IH]. Qed.

Lemma split_newline_not_nil (s : string) : split_newline s <> [].
Proof.
  destruct s as [|c s]; simpl; [discriminate|].
  destruct (Ascii.eqb c newline); [discriminate|].
  destruct (split_newline s); discriminate.
Qed.

Lemma last_cons_default {A : Type} (x d : A) (l : list A) :
  last (x :: l) d = last l x.
Proof.
  revert x d; induction l as [|y l IH]; intros x d; [reflexivity|].
  change (last (x :: y :: l) d) with (last (y :: l) d).
  rewrite IH. symmetry. apply IH.
Qed.

(** Splitting a text that arrives in two parts: the rows closed by the
    first part, then the split of the held-back row joined to the
    second part. *)
Lemma split_newline_app (a b : string) :
  split_newline (a +++ b)
  = removelast (split_newline a) ++ split_newline (last (split_newline a) "" +++ b).
Proof.
  induction a as [|c a IH]; [reflexivity|].
  simpl String.append. simpl split_newline.
  destruct (Ascii.eqb c newline) eqn:Ec.
  - rewrite IH.
    pose proof (split_newline_not_nil a) as Hne.
    destruct (split_newline a) as [|r rs]; [congruence|]. reflexivity.
  - rewrite IH.
    pose proof (split_newline_not_nil a) as Hne.
    destruct (split_newline a) as [|r rs]; [congruence|].
    destruct rs as [|r' rs].
    + simpl. rewrite Ec. reflexivity.
    + reflexivity.
Qed.

Lemma startsWith_data (s : string) : startsWith ("data:" +++ s) "data:" = true.
Proof. unfold startsWith. destruct s; reflexivity. Qed.

Lemma substring_from_data (s : string) : substring_from 5 ("data:" +++ s) = s.
Proof. reflexivity. Qed.

(* ================================================================== *)
(** * The line-buffering decoder *)

Section DecoderFacts.
Context {RT : Runtime}.

Local Abbreviation Val := (JsVal Number).

Lemma split_rows_done (u text : string) :
  split_rows true u text = (split_newline text, u).
Proof. reflexivity. Qed.

(** Before the end of the stream the last row is held back. *)
Lemma split_rows_pending (u text : string) :
  split_rows false u text
  = (removelast (split_newline text), last (split_newline text) "").
Proof.
  unfold split_rows, pop_rest, pop_value.
  destruct (split_newline text) as [|row rows] eqn:E.
  - reflexivity.
  - rewrite last_cons_default.
    destruct (last rows row); reflexivity.
Qed.

(** Buffers followed by the end of the stream give the rows of the
    whole text. *)
Lemma records_from_chunks (values : list (list byte)) (u : string) :
  records_from (map chunk values ++ [end_of_stream]) u
  = split_newline (u +++ texts values).
Proof.
  revert u; induction values as [|value values IH]; intros u.
  - reflexivity.
  - cbn [map app records_from chunk].
    rewrite split_rows_pending, IH.
    unfold read_text. cbn [texts].
    now rewrite <- split_newline_app, append_assoc.
Qed.

(** The same when the read that reports the end carries a last buffer,
    whatever the reader would have returned afterwards. *)
Lemma records_from_done (values : list (list byte)) (value : option (list byte))
    (rest : list ReadResult) (u : string) :
  records_from (map chunk values ++ Read true value :: rest) u
  = split_newline (u +++ texts values +++ read_text "" value).
Proof.
  revert u; induction values as [|v values IH]; intros u.
  - reflexivity.
  - cbn [map app records_from chunk].
    rewrite split_rows_pending, IH.
    unfold read_text at 1 2. cbn [texts].
    now rewrite <- split_newline_app, !append_assoc.
Qed.

End DecoderFacts.

(* ================================================================== *)
(** * The loops *)

Section LoopFacts.
Context {RT : Runtime}.

Local Abbreviation Val := (JsVal Number).

Lemma effects_app (a b : list Event) : effects (a ++ b) = effects a ++ effects b.
Proof.
  induction a as [|e a IH]; [reflexivity|].
  destruct e; simpl; now rewrite IH.
Qed.

Lemma yielded_effects (events : list Event) : yielded (effects events) = yielded events.
Proof.
  induction events as [|e events IH]; [reflexivity|].
  destruct e; simpl; now rewrite IH.
Qed.

Lemma yielded_map (vs : list Val) : yielded (map EYield vs) = vs.
Proof. induction vs as [|v vs IH]; simpl; [reflexivity | now rewrite IH]. Qed.

Lemma effects_process_data o data out ctx :
  effects (events_of (process_data o data out ctx)) = events_of (process_data o data out ctx).
Proof.
  unfold process_data.
  destruct (read (chunkParser o)) as [parser|].
  - destruct (parser data ctx) as [[result ctx']|]; reflexivity.
  - destruct (concat_throws o (chunkContent o data)); [reflexivity|].
    destruct (concat_output o out (chunkContent o data)); reflexivity.
Qed.

(** The [for] loop over two runs of rows. *)
Lemma process_rows_app o (rows1 rows2 : list string) out ctx :
  process_rows o (rows1 ++ rows2) out ctx
  = let '(events1, out1, ctx1, flow1) := process_rows o rows1 out ctx in
    match flow1 with
    | Next =>
        let '(events2, out2, ctx2, flow2) := process_rows o rows2 out1 ctx1 in
        (events1 ++ events2, out2, ctx2, flow2)
    | _ => (events1, out1, ctx1, flow1)
    end.
Proof.
  revert out ctx; induction rows1 as [|row rows1 IH]; intros out ctx.
  - simpl. now destruct (process_rows o rows2 out ctx) as [[[e2 o2] c2] f2].
  - cbn [app process_rows].
    destruct (negb (startsWith row "data:")); [apply IH|].
    destruct (process_data o (substring_from 5 row) out ctx) as [[[e o'] c'] f].
    destruct f; try reflexivity.
    rewrite IH.
    destruct (process_rows o rows1 o' c') as [[[e1 o1] c1] f1].
    destruct f1; try reflexivity.
    destruct (process_rows o rows2 o1 c1) as [[[e2 o2] c2] f2].
    now rewrite app_assoc.
Qed.

Lemma effects_process_rows o rows out ctx :
  effects (events_of (process_rows o rows out ctx)) = events_of (process_rows o rows out ctx).
Proof.
  revert out ctx; induction rows as [|row rows IH]; intros out ctx; [reflexivity|].
  cbn [process_rows].
  destruct (negb (startsWith row "data:")); [apply IH|].
  pose proof (effects_process_data o (substring_from 5 row) out ctx) as Hd.
  destruct (process_data o (substring_from 5 row) out ctx) as [[[e o'] c'] f].
  unfold events_of in Hd; cbn [fst] in Hd.
  destruct f; try exact Hd.
  specialize (IH o' c').
  destruct (process_rows o rows o' c') as [[[e1 o1] c1] f1].
  unfold events_of in *; cbn [fst] in *.
  now rewrite effects_app, Hd, IH.
Qed.

(** What the generator does besides reading is the [for] loop run over
    the rows of the line-buffering decoder. *)
Lemma effects_read_loop o (reader : list ReadResult) (vars : Vars) :
  effects (read_loop o reader vars)
  = events_of (process_rows o (records_from reader (unfinishedText vars))
                 (output vars) (context vars)).
Proof.
  revert vars; induction reader as [|r reader IH]; intros vars.
  - cbn [read_loop records_from effects]. unfold iteration.
    destruct (split_rows true (unfinishedText vars)
                (read_text (unfinishedText vars) None)) as [rows u'].
    cbn [fst].
    pose proof (effects_process_rows o rows (output vars) (context vars)) as He.
    destruct (process_rows o rows (output vars) (context vars)) as [[[e o'] c'] f].
    exact He.
  - destruct r as [done value|]; [|reflexivity].
    cbn [read_loop records_from]. unfold iteration.
    destruct (split_rows done (unfinishedText vars)
                (read_text (unfinishedText vars) value)) as [rows u'].
    pose proof (effects_process_rows o rows (output vars) (context vars)) as He.
    pose proof (process_rows_app o rows (records_from reader u')
                  (output vars) (context vars)) as Ha.
    destruct done.
    + destruct (process_rows o rows (output vars) (context vars)) as [[[e o'] c'] f].
      destruct f; exact He.
    + rewrite Ha.
      destruct (process_rows o rows (output vars) (context vars)) as [[[e o'] c'] f].
      unfold events_of in He; cbn [fst] in He.
      destruct f; try exact He.
      cbn [effects]. rewrite effects_app, He, IH. cbn [unfinishedText output context].
      now destruct (process_rows o (records_from reader u') o' c') as [[[e2 o2] c2] f2].
Qed.

(** Rows that do not start with [data:] leave no trace: the loop over
    rows is the loop over payloads. *)
Lemma process_rows_payloads o rows out ctx :
  process_rows o rows out ctx = process_payloads o (payloads rows) out ctx.
Proof.
  revert out ctx; induction rows as [|row rows IH]; intros out ctx; [reflexivity|].
  unfold payloads, data_rows in *. cbn [process_rows filter].
  destruct (startsWith row "data:"); cbn [negb]; [|apply IH].
  cbn [map process_payloads].
  destruct (process_data o (substring_from 5 row) out ctx) as [[[e o'] c'] f].
  destruct f; try reflexivity.
  now rewrite IH.
Qed.

(** Without a custom parser every payload yields its value and the
    loop goes on, until a concatenation throws. *)
Lemma process_payloads_builtin o datas out ctx :
  read (chunkParser o) = None ->
  exists out' flow,
    process_payloads o datas out ctx
    = (map EYield (builtin_values o out datas), out', ctx, flow).
Proof.
  intros Hp. revert out; induction datas as [|data datas IH]; intros out.
  - exists out, Next. reflexivity.
  - cbn [process_payloads builtin_values]. unfold process_data. rewrite Hp.
    cbv zeta.
    destruct (concat_throws o (chunkContent o data)).
    + exists out, Throw. reflexivity.
    + destruct (concat_output o out (chunkContent o data)) as [out1 text].
      destruct (IH out1) as [out' [flow E]]. exists out', flow.
      rewrite E. reflexivity.
Qed.

(** The values of a run of the built-in path. *)
Lemma yielded_builtin (p : Parser) (reader : list ReadResult) :
  read (chunkParser (options p)) = None ->
  yielded (parse p reader)
  = builtin_values (options p) "" (payloads (records reader)).
Proof.
  intros Hp. unfold parse, records.
  rewrite <- yielded_effects, effects_read_loop, process_rows_payloads.
  cbn [initial unfinishedText output context].
  destruct (process_payloads_builtin (options p)
              (payloads (records_from reader "")) "" [] Hp) as [out' [flow E]].
  rewrite E. unfold events_of. cbn [fst]. apply yielded_map.
Qed.

Lemma builtin_values_length_le o out datas :
  List.length (builtin_values o out datas) <= List.length datas.
Proof.
  revert out; induction datas as [|data datas IH]; intros out; [apply le_n|].
  cbn [builtin_values]. cbv zeta.
  destruct (concat_throws o (chunkContent o data)); [cbn; lia|].
  destruct (concat_output o out (chunkContent o data)) as [out1 text].
  specialize (IH out1). cbn [List.length]. lia.
Qed.

(** The values are as many as the rows the built-in path gets to. *)
Lemma builtin_values_length_reached o out (rows : list string) :
  List.length (builtin_values o out (map (substring_from 5) rows))
  = List.length (reached o rows).
Proof.
  revert out; induction rows as [|row rows IH]; intros out; [reflexivity|].
  cbn [map builtin_values reached]. cbv zeta.
  destruct (concat_throws o (chunkContent o (substring_from 5 row)));
    [reflexivity|].
  destruct (concat_output o out (chunkContent o (substring_from 5 row)))
    as [out1 text].
  cbn [List.length]. now rewrite IH.
Qed.

Lemma reached_all o (rows : list string) :
  forallb (fun row => negb (concat_throws o (chunkContent o (substring_from 5 row))))
    rows = true ->
  reached o rows = rows.
Proof.
  induction rows as [|row rows IH]; [reflexivity|].
  cbn [forallb reached]. intros H. apply andb_prop in H. destruct H as [H1 H2].
  apply negb_true_iff in H1. rewrite H1. now rewrite IH.
Qed.


Lemma concat_throws_standalone o (content : Val) :
  read (autoConcat o) <> Some true ->
  concat_throws o content = false.
Proof.
  intros Ha. unfold concat_throws.
  destruct (read (autoConcat o)) as [[|]|]; [congruence | reflexivity ..].
Qed.

End LoopFacts.

(* ================================================================== *)
(** * Configuration *)

Section Configuration.
Context {RT : Runtime}.

Lemma spread_field_precedence {A : Type} (preset caller default : field A) :
  spread_field default (spread_field caller preset)
  = precedence preset caller default.
Proof. destruct preset, caller; reflexivity. Qed.

(** C2. For every preset factory and every options bundle of the
    caller, the options of the parser are the defaults overridden by
    the caller's options overridden by the preset's fields: on every
    key the preset wins over the caller, and the caller over the
    default. In particular [Parser.PRESETS.OpenAi({contentPath: 'x'})]
    has the preset's [contentPath], not ['x']. *)
Theorem preset_wins_over_caller (name : PresetName) (caller : ParserOption) :
  let preset := PRESETS name in
  let resolved := options (Parser_PRESETS name caller) in
  resolved = spread defaultOptions (spread caller preset)
  /\ chunkParser resolved
     = precedence (chunkParser preset) (chunkParser caller) (chunkParser defaultOptions)
  /\ chunkType resolved
     = precedence (chunkType preset) (chunkType caller) (chunkType defaultOptions)
  /\ contentPath resolved
     = precedence (contentPath preset) (contentPath caller) (contentPath defaultOptions)
  /\ autoConcat resolved
     = precedence (autoConcat preset) (autoConcat caller) (autoConcat defaultOptions)
  /\ outputType resolved
     = precedence (outputType preset) (outputType caller) (outputType defaultOptions)
  /\ validateChunk resolved
     = precedence (validateChunk preset) (validateChunk caller)
         (validateChunk defaultOptions)
  /\ contentPath
       (options
          (Parser_PRESETS OpenAi
             {| chunkParser := Absent; chunkType := Absent;
                contentPath := Has "x"; autoConcat := Absent;
                outputType := Absent; validateChunk := Absent |}))
     = Has "choices[0].delta.content".
Proof.
  cbv zeta. unfold Parser_PRESETS, new_Parser. cbn [options].
  split; [reflexivity|].
  unfold spread at 1 3 5 7 9 11.
  cbn [chunkParser chunkType contentPath autoConcat outputType validateChunk].
  unfold spread.
  cbn [chunkParser chunkType contentPath autoConcat outputType validateChunk].
  repeat split; try apply spread_field_precedence.
Qed.

End Configuration.

(* ================================================================== *)
(** * Filtering, extraction and accumulation *)

Section Extraction.
Context {RT : Runtime}.

Local Abbreviation Val := (JsVal Number).

Lemma emitted_text_shape o (s : string) : emitted_text (shape o (VStr s)) = Some s.
Proof. unfold shape. destruct (read (outputType o)) as [[|]|]; reflexivity. Qed.

Lemma process_rows_skips o rows out ctx :
  process_rows o (filter (fun row => negb (startsWith row "data:")) rows) out ctx
  = ([], out, ctx, Next).
Proof.
  induction rows as [|row rows IH]; [reflexivity|].
  cbn [filter]. destruct (negb (startsWith row "data:")) eqn:E; [|exact IH].
  cbn [process_rows]. now rewrite E.
Qed.

(** C6. Only a record that begins with the five characters [data:] can
    lead to a value: the loop over the records is the loop over the
    payloads of the records that have the prefix, records without it
    leave no event and change nothing, and the payload handed on is the
    record without its first five characters, white space included. *)
Theorem only_data_records_are_processed o (rows : list string) (out : string)
    (ctx : ParseContext) (s : string) :
  process_rows o rows out ctx = process_payloads o (payloads rows) out ctx
  /\ process_rows o (filter (fun row => negb (startsWith row "data:")) rows) out ctx
     = ([], out, ctx, Next)
  /\ payloads ["data:" +++ s] = [s].
Proof.
  split; [apply process_rows_payloads|].
  split; [apply process_rows_skips|].
  unfold payloads, data_rows. cbn [filter].
  now rewrite startsWith_data.
Qed.

Lemma builtin_values_nth_concat o (datas : list string) (out : string) (k : nat) (v : Val) :
  read (autoConcat o) = Some true ->
  nth_error (builtin_values o out datas) k = Some v ->
  emitted_text v
  = Some (fold_left js_concat (firstn (S k) (map (chunkContent o) datas)) out).
Proof.
  intros Ha. revert out k; induction datas as [|data datas IH]; intros out k Hk.
  - destruct k; discriminate.
  - cbn [builtin_values] in Hk. cbv zeta in Hk.
    destruct (concat_throws o (chunkContent o data));
      [destruct k; discriminate|].
    unfold concat_output in Hk. rewrite Ha in Hk.
    destruct k as [|k]; cbn [nth_error] in Hk.
    + injection Hk as <-. rewrite emitted_text_shape. reflexivity.
    + cbn [map]. rewrite firstn_cons. cbn [fold_left]. now apply IH.
Qed.




Lemma fold_left_snoc {A B : Type} (f : A -> B -> A) (l : list B) (x : B) (a : A) :
  fold_left f (l ++ [x]) a = f (fold_left f l a) x.
Proof. now rewrite fold_left_app. Qed.

(** The value of a row the built-in path gets to, with the [output]
    that the rows before it have built. *)
Lemma builtin_values_nth_reached o (rows : list string) (out : string) (k : nat)
    (row : string) :
  nth_error (reached o rows) k = Some row ->
  nth_error rows k = Some row
  /\ nth_error (builtin_values o out (map (substring_from 5) rows)) k
     = Some (shape o
               (snd (concat_output o
                       (fold_left
                          (fun output data =>
                             fst (concat_output o output (chunkContent o data)))
                          (map (substring_from 5) (firstn k rows)) out)
                       (chunkContent o (substring_from 5 row))))).
Proof.
  revert out k; induction rows as [|r rows IH]; intros out k Hk.
  - destruct k; discriminate.
  - cbn [reached] in Hk. cbn [map builtin_values]. cbv zeta.
    destruct (concat_throws o (chunkContent o (substring_from 5 r)));
      [destruct k; discriminate|].
    destruct (concat_output o out (chunkContent o (substring_from 5 r)))
      as [out1 text] eqn:E.
    destruct k as [|k]; cbn [nth_error] in *.
    + injection Hk as ->. split; [reflexivity|].
      cbn [firstn map fold_left]. now rewrite E.
    + destruct (IH out1 k Hk) as [Hr Hv]. split; [exact Hr|].
      rewrite Hv. cbn [firstn map fold_left]. now rewrite E.
Qed.

(** C10. Without a custom parser [parse] yields one value per record
    that begins with [data:], in the order of the records, for the
    records it gets to: the k-th value is the shaped result text of the
    k-th such record, computed on the [output] the earlier records have
    built, whatever its fragment is, the empty one of malformed JSON or
    of an absent path included. It gets to every record unless, with
    accumulation, a fragment does not convert to a string: the
    concatenation then throws and the stream ends without a value for
    that record or any later one. *)
Theorem one_value_per_data_record_reached (p : Parser) (reader : list ReadResult) :
  read (chunkParser (options p)) = None ->
  let o := options p in
  let rows := data_rows (records reader) in
  yielded (parse p reader) = builtin_values o "" (payloads (records reader))
  /\ List.length (yielded (parse p reader)) = List.length (reached o rows)
  /\ (forall (k : nat) (row : string),
        nth_error (reached o rows) k = Some row ->
        nth_error rows k = Some row
        /\ nth_error (yielded (parse p reader)) k
           = Some (shape o
                     (snd (concat_output o
                             (running_output o
                                (map (substring_from 5) (firstn k rows)))
                             (chunkContent o (substring_from 5 row))))))
  /\ (forallb
        (fun row => negb (concat_throws o (chunkContent o (substring_from 5 row))))
        rows = true ->
      reached o rows = rows
      /\ List.length (yielded (parse p reader)) = List.length rows).
Proof.
  intros Hp o rows. rewrite (yielded_builtin p reader Hp). fold o.
  unfold payloads. fold rows.
  split; [reflexivity|]. split; [apply builtin_values_length_reached|]. split.
  - intros k row Hk. unfold running_output.
    now apply builtin_values_nth_reached.
  - intros Hall. rewrite builtin_values_length_reached.
    now rewrite (reached_all o rows Hall).
Qed.

End Extraction.

(* ================================================================== *)
(** * Errors *)

Section Errors.
Context {RT : Runtime}.

Local Abbreviation Val := (JsVal Number).

Lemma concat_output_empty o (out : string) :
  fst (concat_output o out (VStr "")) = out.
Proof.
  unfold concat_output.
  destruct (read (autoConcat o)) as [[|]|]; cbn [fst]; try reflexivity.
  apply append_empty_r.
Qed.

(** C7. Under the built-in path with [chunkType] ['json'], a payload
    that [JSON.parse] rejects has the empty string as its fragment, its
    record yields the result text for that fragment, leaves [output] as
    it was and the loop goes on with the records that follow; and when
    the payload parses but the configured path is absent from it, the
    fragment is the empty string as well. *)
Theorem malformed_json_is_an_empty_fragment o (data : string) :
  read (chunkParser o) = None ->
  read (chunkType o) = Some CT_json ->
  (JSON_parse (trim data) = None ->
   chunkContent o data = VStr ""
   /\ forall (rows : list string) (out : string) (ctx : ParseContext),
        process_rows o (("data:" +++ data) :: rows) out ctx
        = let '(events, out', ctx', flow) := process_rows o rows out ctx in
          (EYield (shape o (snd (concat_output o out (VStr "")))) :: events,
           out', ctx', flow))
  /\ (forall chunk : Val,
        JSON_parse (trim data) = Some chunk ->
        get chunk (match read (contentPath o) with
                   | Some path => path
                   | None => ""
                   end) = VUndefined ->
        chunkContent o data = VStr "").
Proof.
  intros Hp Ht. split.
  - intros Hj.
    assert (Hc : chunkContent o data = VStr "").
    { unfold chunkContent. now rewrite Ht, Hj. }
    split; [exact Hc|]. intros rows out ctx.
    cbn [process_rows]. rewrite startsWith_data, substring_from_data. cbn [negb].
    unfold process_data. rewrite Hp, Hc. cbv zeta.
    assert (Hn : concat_throws o (VStr "") = false).
    { unfold concat_throws. now destruct (read (autoConcat o)) as [[|]|]. }
    rewrite Hn.
    pose proof (concat_output_empty o out) as Ho.
    destruct (concat_output o out (VStr "")) as [out1 text].
    cbn [fst snd] in *. subst out1.
    now destruct (process_rows o rows out ctx) as [[[e o'] c'] f].
  - intros chunk Hj Hg. unfold chunkContent. now rewrite Ht, Hj, Hg.
Qed.

(** Once a call of the custom parser has returned an [Error], the
    [for] loop yields it and returns. *)
Lemma process_rows_error o (rows : list string) (out : string) (ctx : ParseContext)
    (pre post : list Event) (data : string) (v : Val) :
  events_of (process_rows o rows out ctx) = pre ++ ECall data (Some v) :: post ->
  instanceof_Error v = true ->
  post = [EYield v] /\ snd (process_rows o rows out ctx) = Return.
Proof.
  intros He Hv. revert out ctx pre He.
  induction rows as [|row rows IH]; intros out ctx pre He.
  - destruct pre; discriminate.
  - cbn [process_rows] in *.
    destruct (negb (startsWith row "data:")); [exact (IH out ctx pre He)|].
    unfold process_data in *.
    destruct (read (chunkParser o)) as [parser|].
    + destruct (parser (substring_from 5 row) ctx) as [[result ctx']|].
      * destruct (instanceof_Error result) eqn:Er.
        -- unfold events_of in He; cbn [fst snd] in *.
           destruct pre as [|e1 [|e2 [|e3 pre]]]; try discriminate.
           injection He as Hd Hr Hpost. subst. split; reflexivity.
        -- specialize (IH out ctx').
           destruct (process_rows o rows out ctx') as [[[e o'] c'] f].
           unfold events_of in *; cbn [fst snd app] in *.
           destruct pre as [|e1 [|e2 pre]]; try discriminate.
           ++ injection He as Hd Hr Hpost. subst. congruence.
           ++ injection He as H1 H2 He. now apply (IH pre).
      * unfold events_of in He; cbn [fst] in He.
        destruct pre as [|e1 [|e2 pre]]; discriminate.
    + cbv zeta in *.
      destruct (concat_throws o (chunkContent o (substring_from 5 row))).
      { unfold events_of in He; cbn [fst] in He. destruct pre; discriminate. }
      destruct (concat_output o out (chunkContent o (substring_from 5 row)))
        as [out1 text].
      specialize (IH out1 ctx).
      destruct (process_rows o rows out1 ctx) as [[[e o'] c'] f].
      unfold events_of in *; cbn [fst snd app] in *.
      destruct pre as [|e1 pre]; try discriminate.
      injection He as H1 He. now apply (IH pre).
Qed.

Lemma read_loop_error o (reader : list ReadResult) (vars : Vars)
    (pre post : list Event) (data : string) (v : Val) :
  read_loop o reader vars = pre ++ ECall data (Some v) :: post ->
  instanceof_Error v = true ->
  post = [EYield v].
Proof.
  intros He Hv. revert vars pre He.
  induction reader as [|r reader IH]; intros vars pre He.
  - cbn [read_loop] in He. unfold iteration in He.
    destruct (split_rows true (unfinishedText vars)
                (read_text (unfinishedText vars) None)) as [rows u'].
    pose proof (process_rows_error o rows (output vars) (context vars)) as Hr.
    destruct (process_rows o rows (output vars) (context vars)) as [[[e o'] c'] f].
    cbn [fst] in He. destruct pre as [|e1 pre]; [discriminate|].
    injection He as _ He. now apply (Hr pre post data v He Hv).
  - destruct r as [done value|].
    + cbn [read_loop] in He. unfold iteration in He.
      destruct (split_rows done (unfinishedText vars)
                  (read_text (unfinishedText vars) value)) as [rows u'].
      pose proof (process_rows_error o rows (output vars) (context vars)) as Hr.
      destruct (process_rows o rows (output vars) (context vars)) as [[[e o'] c'] f].
      unfold events_of in Hr; cbn [fst snd] in Hr.
      assert (Hstop : ERead :: e = pre ++ ECall data (Some v) :: post ->
                      post = [EYield v]).
      { intros H. destruct pre as [|e1 pre]; [discriminate|].
        injection H as _ H. now apply (Hr pre post data v H Hv). }
      destruct f; [|now apply Hstop|now apply Hstop].
      destruct done; [now apply Hstop|].
      destruct pre as [|e1 pre]; [discriminate|].
      injection He as _ He.
      apply app_eq_app in He. destruct He as [l [[H1 H2]|[H1 H2]]].
      * destruct l as [|x l].
        -- rewrite app_nil_l in H2. symmetry in H2.
           now apply (IH _ [] H2).
        -- injection H2 as <- H2.
           destruct (Hr pre l data v H1 Hv) as [_ Hf]. discriminate.
      * now apply (IH _ l H2).
    + cbn [read_loop] in He. destruct pre as [|e1 [|e2 pre]]; discriminate.
Qed.

(** C8. When the custom parser returns an [Error] for some record, what
    follows the call in the run is the one [yield] of that error and
    nothing else: no further record reaches the parser, nothing more is
    read and nothing more is yielded. *)
Theorem custom_parser_error_ends_the_run (p : Parser) (reader : list ReadResult)
    (pre post : list Event) (data : string) (v : Val) :
  parse p reader = pre ++ ECall data (Some v) :: post ->
  instanceof_Error v = true ->
  post = [EYield v].
Proof. unfold parse. apply read_loop_error. Qed.

End Errors.

(* ================================================================== *)
(** * Reads *)

Section Reads.
Context {RT : Runtime}.

Local Abbreviation Val := (JsVal Number).

Lemma reads_effects (events : list Event) : reads (effects events) = 0.
Proof.
  induction events as [|e events IH]; [reflexivity|].
  destruct e; simpl; exact IH.
Qed.

Lemma reads_process_rows o rows out ctx :
  reads (events_of (process_rows o rows out ctx)) = 0.
Proof. rewrite <- effects_process_rows. apply reads_effects. Qed.

(** Line reassembly does not depend on where the decoded text is cut:
    when the buffers of several reads decode to the pieces of the text
    that one buffer decodes to, both deliveries give the same records in
    the same order, and so the same calls and values, for every parser. *)
Lemma line_reassembly_is_split_invariant (values : list (list byte))
    (whole : list byte) :
  decode whole = texts values ->
  records (map chunk values ++ [end_of_stream])
  = records [chunk whole; end_of_stream]
  /\ forall p : Parser,
       effects (parse p (map chunk values ++ [end_of_stream]))
       = effects (parse p [chunk whole; end_of_stream]).
Proof.
  intros Hd.
  assert (Hr : records (map chunk values ++ [end_of_stream])
               = records [chunk whole; end_of_stream]).
  { unfold records. rewrite records_from_chunks.
    change [chunk whole; end_of_stream] with (map chunk [whole] ++ [end_of_stream]).
    rewrite records_from_chunks. cbn [texts].
    now rewrite Hd, append_empty_r. }
  split; [exact Hr|].
  intros p. unfold parse. rewrite !effects_read_loop.
  cbn [initial unfinishedText output context].
  unfold records in Hr. now rewrite Hr.
Qed.

(** C5. When a read reports [done], every piece of the split text, the
    last one included although no newline ends it, is handed to the
    [for] loop in that pass, and the loop is left: the generator reads
    once and never looks at what the reader holds after it. The records
    of buffers closed by such a read are the pieces of the whole text. *)
Theorem done_pass_takes_every_row o (value : option (list byte)) (vars : Vars)
    (rest : list ReadResult) (values : list (list byte)) :
  let rows := split_newline (read_text (unfinishedText vars) value) in
  let pass := events_of (process_rows o rows (output vars) (context vars)) in
  iteration o true value vars = (pass, None)
  /\ read_loop o (Read true value :: rest) vars = ERead :: pass
  /\ reads (read_loop o (Read true value :: rest) vars) = 1
  /\ records (map chunk values ++ Read true value :: rest)
     = split_newline (texts values +++ read_text "" value).
Proof.
  intros rows pass.
  assert (Hi : iteration o true value vars = (pass, None)).
  { unfold iteration. rewrite split_rows_done. unfold pass, rows.
    destruct (process_rows o
                (split_newline (read_text (unfinishedText vars) value))
                (output vars) (context vars)) as [[[e o'] c'] f].
    now destruct f. }
  split; [exact Hi|].
  assert (Hl : read_loop o (Read true value :: rest) vars = ERead :: pass).
  { cbn [read_loop]. now rewrite Hi. }
  split; [exact Hl|]. split.
  - rewrite Hl. cbn [reads]. unfold pass. now rewrite reads_process_rows.
  - unfold records. now rewrite records_from_done.
Qed.

Lemma process_data_same_fields o1 o2 (data : string) (out : string)
    (ctx : ParseContext) :
  chunkParser o1 = chunkParser o2 ->
  chunkType o1 = chunkType o2 ->
  contentPath o1 = contentPath o2 ->
  autoConcat o1 = autoConcat o2 ->
  outputType o1 = outputType o2 ->
  process_data o1 data out ctx = process_data o2 data out ctx.
Proof.
  intros H1 H2 H3 H4 H5.
  unfold process_data, chunkContent, concat_throws, concat_output, shape.
  now rewrite H1, H2, H3, H4, H5.
Qed.

Lemma process_rows_same_fields o1 o2 (rows : list string) (out : string)
    (ctx : ParseContext) :
  chunkParser o1 = chunkParser o2 ->
  chunkType o1 = chunkType o2 ->
  contentPath o1 = contentPath o2 ->
  autoConcat o1 = autoConcat o2 ->
  outputType o1 = outputType o2 ->
  process_rows o1 rows out ctx = process_rows o2 rows out ctx.
Proof.
  intros H1 H2 H3 H4 H5. revert out ctx.
  induction rows as [|row rows IH]; intros out ctx; [reflexivity|].
  cbn [process_rows].
  rewrite (process_data_same_fields o1 o2 _ _ _ H1 H2 H3 H4 H5).
  destruct (negb (startsWith row "data:")); [apply IH|].
  destruct (process_data o2 (substring_from 5 row) out ctx) as [[[e o'] c'] f].
  now rewrite IH.
Qed.

Lemma read_loop_same_fields o1 o2 (reader : list ReadResult) (vars : Vars) :
  chunkParser o1 = chunkParser o2 ->
  chunkType o1 = chunkType o2 ->
  contentPath o1 = contentPath o2 ->
  autoConcat o1 = autoConcat o2 ->
  outputType o1 = outputType o2 ->
  read_loop o1 reader vars = read_loop o2 reader vars.
Proof.
  intros H1 H2 H3 H4 H5.
  assert (Hi : forall done value vars,
             iteration o1 done value vars = iteration o2 done value vars).
  { intros done value vs. unfold iteration.
    destruct (split_rows done (unfinishedText vs)
                (read_text (unfinishedText vs) value)) as [rows u'].
    now rewrite (process_rows_same_fields o1 o2 _ _ _ H1 H2 H3 H4 H5). }
  revert vars; induction reader as [|r reader IH]; intros vars.
  - cbn [read_loop]. now rewrite Hi.
  - destruct r as [done value|]; [|reflexivity].
    cbn [read_loop]. rewrite Hi.
    destruct (iteration o2 done value vars) as [events [vars'|]]; [|reflexivity].
    now rewrite IH.
Qed.

(** C9. [validateChunk] is never called: for every reader and every
    options without a custom parser, the run of [parse], and with it the
    sequence of values, is the same whether the options set
    [validateChunk] or leave it out. *)
Theorem validateChunk_is_never_consulted (o : ParserOption)
    (validate : string -> option string) (reader : list ReadResult) :
  read (chunkParser o) = None ->
  parse (new_Parser (set_validateChunk (Has validate) o)) reader
  = parse (new_Parser (set_validateChunk Absent o)) reader
  /\ yielded (parse (new_Parser (set_validateChunk (Has validate) o)) reader)
     = yielded (parse (new_Parser (set_validateChunk Absent o)) reader).
Proof.
  intros _.
  assert (He : parse (new_Parser (set_validateChunk (Has validate) o)) reader
               = parse (new_Parser (set_validateChunk Absent o)) reader).
  { unfold parse. apply read_loop_same_fields; reflexivity. }
  split; [exact He | now rewrite He].
Qed.

End Reads.

(* ================================================================== *)
(** * The default output type *)

Section DefaultOutput.
Context {RT : Runtime}.

Local Abbreviation Val := (JsVal Number).

Lemma builtin_values_wrapped o (datas : list string) (out : string) :
  read (autoConcat o) = Some true ->
  read (outputType o) = None ->
  Forall (fun v : Val => exists s : string, v = VObj [("text", VStr s)])
    (builtin_values o out datas).
Proof.
  intros Ha Ho. revert out; induction datas as [|data datas IH]; intros out.
  - constructor.
  - cbn [builtin_values]. cbv zeta.
    destruct (concat_throws o (chunkContent o data)); [constructor|].
    unfold concat_output, shape. rewrite Ha, Ho.
    constructor; [eexists; reflexivity | apply IH].
Qed.

(** A parser built from [{}] wraps every value in an object: the
    defaults leave [outputType] out and [parse] tests it against
    ['text']. *)
Lemma default_parser_yields_objects (reader : list ReadResult) :
  Forall (fun v : Val => exists s : string, v = VObj [("text", VStr s)])
    (yielded (parse (new_Parser no_options) reader)).
Proof.
  rewrite yielded_builtin by reflexivity.
  apply builtin_values_wrapped; reflexivity.
Qed.

End DefaultOutput.

(* ================================================================== *)
(** * The custom path *)

Section CustomPathFacts.
Context {RT : Runtime}.

Local Abbreviation Val := (JsVal Number).

(** Two options that treat every payload alike run alike. *)
Lemma process_rows_ext o1 o2 (rows : list string) (out : string) (ctx : ParseContext) :
  (forall data out ctx, process_data o1 data out ctx = process_data o2 data out ctx) ->
  process_rows o1 rows out ctx = process_rows o2 rows out ctx.
Proof.
  intros Hd. revert out ctx.
  induction rows as [|row rows IH]; intros out ctx; [reflexivity|].
  cbn [process_rows]. rewrite Hd.
  destruct (negb (startsWith row "data:")); [apply IH|].
  destruct (process_data o2 (substring_from 5 row) out ctx) as [[[e o'] c'] f].
  now rewrite IH.
Qed.

Lemma read_loop_ext o1 o2 (reader : list ReadResult) (vars : Vars) :
  (forall data out ctx, process_data o1 data out ctx = process_data o2 data out ctx) ->
  read_loop o1 reader vars = read_loop o2 reader vars.
Proof.
  intros Hd.
  assert (Hi : forall done value vs,
             iteration o1 done value vs = iteration o2 done value vs).
  { intros done value vs. unfold iteration.
    destruct (split_rows done (unfinishedText vs)
                (read_text (unfinishedText vs) value)) as [rows u'].
    now rewrite (process_rows_ext o1 o2 _ _ _ Hd). }
  revert vars; induction reader as [|r reader IH]; intros vars.
  - cbn [read_loop]. now rewrite Hi.
  - destruct r as [done value|]; [|reflexivity].
    cbn [read_loop]. rewrite Hi.
    destruct (iteration o2 done value vars) as [events [vars'|]]; [|reflexivity].
    now rewrite IH.
Qed.

(** With a custom parser in both, nothing else in the options is
    looked at. *)
Lemma process_data_custom o1 o2 (parser : ChunkParser) data out ctx :
  read (chunkParser o1) = Some parser ->
  read (chunkParser o2) = Some parser ->
  process_data o1 data out ctx = process_data o2 data out ctx.
Proof. intros H1 H2. unfold process_data. now rewrite H1, H2. Qed.

(** Without a custom parser, only what the four extraction options
    read as is looked at. *)
Lemma process_data_builtin o1 o2 data out ctx :
  read (chunkParser o1) = None ->
  read (chunkParser o2) = None ->
  read (chunkType o1) = read (chunkType o2) ->
  read (contentPath o1) = read (contentPath o2) ->
  read (autoConcat o1) = read (autoConcat o2) ->
  read (outputType o1) = read (outputType o2) ->
  process_data o1 data out ctx = process_data o2 data out ctx.
Proof.
  intros H1 H2 H3 H4 H5 H6.
  unfold process_data, chunkContent, concat_throws, concat_output, shape.
  now rewrite H1, H2, H3, H4, H5, H6.
Qed.

(** X4. When a custom parser is configured, [chunkType], [contentPath],
    [autoConcat], [outputType] and [validateChunk] are ignored: two
    option bundles with the same [chunkParser] give the same run on
    every reader, whatever their other keys are. *)
Theorem custom_parser_overrides_extraction_options (o1 o2 : ParserOption)
    (parser : ChunkParser) (reader : list ReadResult) :
  chunkParser o1 = Has parser ->
  chunkParser o2 = Has parser ->
  parse (new_Parser o1) reader = parse (new_Parser o2) reader.
Proof.
  intros H1 H2. unfold parse. apply read_loop_ext. intros data out ctx.
  apply (process_data_custom _ _ parser); cbn; [now rewrite H1 | now rewrite H2].
Qed.

(** X5. The factories of the presets that carry a parser, DeepSeek and
    DifyApp, ignore every option of the caller, a [chunkParser] of the
    caller included: the run is that of the factory called with [{}]. *)
Theorem parser_presets_ignore_caller_options (o : ParserOption)
    (reader : list ReadResult) :
  parse (Parser_PRESETS DeepSeek o) reader
  = parse (Parser_PRESETS DeepSeek no_options) reader
  /\ parse (Parser_PRESETS DifyApp o) reader
     = parse (Parser_PRESETS DifyApp no_options) reader.
Proof.
  split; unfold parse; apply read_loop_ext; intros data out ctx.
  - now apply (process_data_custom _ _ DeepSeek_chunkParser).
  - now apply (process_data_custom _ _ DifyApp_chunkParser).
Qed.

(** X6. Of the caller's options the OpenAi and Dify factories keep only
    [chunkParser] and [validateChunk]. When the caller sets no parser
    the run is that of the bare preset; when the caller sets one, it
    replaces the extraction of the preset and the run is that of a
    parser built from the caller's [chunkParser] alone. *)
Theorem extraction_presets_keep_only_the_callers_parser (name : PresetName)
    (o : ParserOption) (reader : list ReadResult) :
  preset_parser name = None ->
  (read (chunkParser o) = None ->
   parse (Parser_PRESETS name o) reader
   = parse (Parser_PRESETS name no_options) reader)
  /\ (forall parser : ChunkParser,
        chunkParser o = Has parser ->
        parse (Parser_PRESETS name o) reader
        = parse (new_Parser (only_chunkParser parser)) reader).
Proof.
  intros Hn. split.
  - intros Hp. unfold parse. apply read_loop_ext. intros data out ctx.
    destruct name; try discriminate Hn;
      (apply process_data_builtin; cbn;
       [destruct (chunkParser o); [reflexivity | reflexivity | discriminate Hp]
       | reflexivity ..]).
  - intros parser Hp. unfold parse. apply read_loop_ext. intros data out ctx.
    destruct name; try discriminate Hn;
      apply (process_data_custom _ _ parser); cbn; now rewrite ?Hp.
Qed.

(** The loop over payloads is the fold of the parser. *)
Lemma process_payloads_custom o (parser : ChunkParser) (datas : list string)
    (out : string) (ctx : ParseContext) :
  read (chunkParser o) = Some parser ->
  events_of (process_payloads o datas out ctx) = custom_run parser ctx datas.
Proof.
  intros Hp. revert ctx; induction datas as [|data datas IH]; intros ctx;
    [reflexivity|].
  cbn [process_payloads custom_run]. unfold process_data. rewrite Hp.
  destruct (parser data ctx) as [[result ctx']|]; [|reflexivity].
  destruct (instanceof_Error result); [reflexivity|].
  specialize (IH ctx').
  destruct (process_payloads o datas out ctx') as [[[e o'] c'] f].
  unfold events_of in *; cbn [fst] in *. now rewrite IH.
Qed.

Lemma effects_parse_custom (p : Parser) (parser : ChunkParser)
    (reader : list ReadResult) :
  read (chunkParser (options p)) = Some parser ->
  effects (parse p reader) = custom_run parser [] (payloads (records reader)).
Proof.
  intros Hp. unfold parse, records.
  rewrite effects_read_loop, process_rows_payloads.
  now apply process_payloads_custom.
Qed.

(** X2. With a custom parser, what [parse] does besides reading is the
    parser folded over the payloads of the data records in stream
    order: every call receives the context left by the call before it,
    the first one the empty object; the value of each call is yielded;
    and the fold stops with the first call that throws or returns an
    [Error]. *)
Theorem custom_run_threads_the_context (p : Parser) (parser : ChunkParser)
    (reader : list ReadResult) :
  read (chunkParser (options p)) = Some parser ->
  effects (parse p reader) = custom_run parser [] (payloads (records reader)).
Proof. apply effects_parse_custom. Qed.

End CustomPathFacts.

(* ================================================================== *)
(** * Calls of the custom parser in a run *)

Section Calls.
Context {RT : Runtime}.

Local Abbreviation Val := (JsVal Number).

(** A call recorded in a run of the [for] loop was made on some
    context; if it threw, the loop ends there with an exception, and
    if it returned, its value is yielded next. *)
Lemma process_rows_call o (parser : ChunkParser) (rows : list string) (out : string)
    (ctx : ParseContext) (pre post : list Event) (data : string)
    (r : option Val) :
  read (chunkParser o) = Some parser ->
  events_of (process_rows o rows out ctx) = pre ++ ECall data r :: post ->
  exists c : ParseContext,
    (parser data c = None /\ r = None /\ post = []
     /\ snd (process_rows o rows out ctx) = Throw)
    \/ (exists v c' post',
          parser data c = Some (v, c') /\ r = Some v /\ post = EYield v :: post').
Proof.
  intros Hp. revert out ctx pre.
  induction rows as [|row rows IH]; intros out ctx pre He.
  - destruct pre; discriminate.
  - cbn [process_rows] in *.
    destruct (negb (startsWith row "data:")); [exact (IH out ctx pre He)|].
    unfold process_data in *. rewrite Hp in *.
    destruct (parser (substring_from 5 row) ctx) as [[result ctx']|] eqn:Ec.
    + destruct (instanceof_Error result) eqn:Er.
      * unfold events_of in He; cbn [fst snd] in *.
        destruct pre as [|e1 [|e2 [|e3 pre]]]; try discriminate.
        injection He as Hd Hr Hpost. subst.
        exists ctx. right. exists result, ctx', []. repeat split; exact Ec.
      * specialize (IH out ctx').
        destruct (process_rows o rows out ctx') as [[[e o'] c'] f].
        unfold events_of in *; cbn [fst snd app] in *.
        destruct pre as [|e1 [|e2 pre]]; try discriminate.
        -- injection He as Hd Hr Hpost. subst.
           exists ctx. right. exists result, ctx', e. repeat split; exact Ec.
        -- injection He as H1 H2 He. exact (IH pre He).
    + unfold events_of in He; cbn [fst snd] in *.
      destruct pre as [|e1 [|e2 pre]]; try discriminate.
      injection He as Hd Hr Hpost. subst.
      exists ctx. left. repeat split; exact Ec.
Qed.

Lemma read_loop_call o (parser : ChunkParser) (reader : list ReadResult)
    (vars : Vars) (pre post : list Event) (data : string) (r : option Val) :
  read (chunkParser o) = Some parser ->
  read_loop o reader vars = pre ++ ECall data r :: post ->
  exists c : ParseContext,
    (parser data c = None /\ r = None /\ post = [])
    \/ (exists v c' post',
          parser data c = Some (v, c') /\ r = Some v /\ post = EYield v :: post').
Proof.
  intros Hp. revert vars pre.
  induction reader as [|rd reader IH]; intros vars pre He.
  - cbn [read_loop] in He. unfold iteration in He.
    destruct (split_rows true (unfinishedText vars)
                (read_text (unfinishedText vars) None)) as [rows u'].
    pose proof (process_rows_call o parser rows (output vars) (context vars)) as Hr.
    destruct (process_rows o rows (output vars) (context vars)) as [[[e o'] c'] f].
    cbn [fst] in He. destruct pre as [|e1 pre]; [discriminate|].
    injection He as _ He.
    destruct (Hr pre post data r Hp He) as [c [(H1 & H2 & H3 & _)|H]];
      exists c; [left; auto | right; exact H].
  - destruct rd as [done value|].
    + cbn [read_loop] in He. unfold iteration in He.
      destruct (split_rows done (unfinishedText vars)
                  (read_text (unfinishedText vars) value)) as [rows u'].
      pose proof (process_rows_call o parser rows (output vars) (context vars)) as Hr.
      destruct (process_rows o rows (output vars) (context vars)) as [[[e o'] c'] f].
      unfold events_of in Hr; cbn [fst snd] in Hr.
      assert (Hstop : ERead :: e = pre ++ ECall data r :: post ->
                exists c : ParseContext,
                  (parser data c = None /\ r = None /\ post = [])
                  \/ (exists v c' post',
                        parser data c = Some (v, c') /\ r = Some v
                        /\ post = EYield v :: post')).
      { intros H. destruct pre as [|e1 pre]; [discriminate|].
        injection H as _ H.
        destruct (Hr pre post data r Hp H) as [c [(H1 & H2 & H3 & _)|H']];
          exists c; [left; auto | right; exact H']. }
      destruct f; [|now apply Hstop|now apply Hstop].
      destruct done; [now apply Hstop|].
      destruct pre as [|e1 pre]; [discriminate|].
      injection He as _ He.
      apply app_eq_app in He. destruct He as [l [[H1 H2]|[H1 H2]]].
      * destruct l as [|x l].
        -- rewrite app_nil_l in H2. symmetry in H2.
           exact (IH _ [] H2).
        -- injection H2 as <- H2.
           destruct (Hr pre l data r Hp H1) as [c [(_ & _ & _ & Hf)|H']];
             [discriminate|].
           destruct H' as (v & c2 & post' & Hc & Hv & Hl).
           exists c. right. exists v, c2, (post' ++ read_loop o reader
             {| unfinishedText := u'; output := o'; context := c' |}).
           subst. auto.
      * exact (IH _ l H2).
    + cbn [read_loop] in He. destruct pre as [|e1 [|e2 pre]]; discriminate.
Qed.

(** Without a custom parser a run has no call. *)
Lemma builtin_run_has_no_call (p : Parser) (reader : list ReadResult)
    (pre post : list Event) (data : string) (r : option Val) :
  read (chunkParser (options p)) = None ->
  parse p reader <> pre ++ ECall data r :: post.
Proof.
  intros Hp He.
  assert (Hin : In (ECall data r) (effects (parse p reader))).
  { rewrite He, effects_app. apply in_or_app. right. now left. }
  unfold parse in Hin. rewrite effects_read_loop, process_rows_payloads in Hin.
  destruct (process_payloads_builtin (options p)
              (payloads (records_from reader (unfinishedText initial)))
              (output initial) (context initial) Hp) as [out' [flow E]].
  rewrite E in Hin. unfold events_of in Hin. cbn [fst] in Hin.
  apply in_map_iff in Hin. destruct Hin as [v [Hv _]]. discriminate.
Qed.

(** X3. Every call of the custom parser in a run is followed at once by
    the [yield] of the value it returned; and a call that throws is the
    last event of the run: nothing is yielded for that record, no later
    record is processed and nothing more is read. *)
Theorem call_is_followed_by_its_yield_or_ends_the_run (p : Parser)
    (reader : list ReadResult) (pre post : list Event) (data : string)
    (r : option Val) :
  parse p reader = pre ++ ECall data r :: post ->
  match r with
  | Some v => exists post', post = EYield v :: post'
  | None => post = []
  end.
Proof.
  intros He.
  destruct (read (chunkParser (options p))) as [parser|] eqn:Hp.
  - destruct (read_loop_call _ parser _ _ _ _ _ _ Hp He)
      as [c [(_ & -> & ->)|(v & c' & post' & _ & -> & ->)]].
    + reflexivity.
    + now exists post'.
  - now destruct (builtin_run_has_no_call p reader pre post data r Hp).
Qed.

(** X16. The parsers of the DeepSeek and DifyApp presets call
    [JSON.parse] outside any [try]: whenever one of them is handed a
    payload that is not JSON, the call throws and the run ends there
    without a value, whatever the caller's options and the records
    after it. *)
Theorem preset_parsers_end_the_run_on_malformed_json (name : PresetName)
    (parser : ChunkParser) (o : ParserOption) (reader : list ReadResult)
    (pre post : list Event) (data : string) (r : option Val) :
  preset_parser name = Some parser ->
  JSON_parse (trim data) = None ->
  parse (Parser_PRESETS name o) reader = pre ++ ECall data r :: post ->
  r = None /\ post = [].
Proof.
  intros Hn Hj He.
  assert (Hp : read (chunkParser (options (Parser_PRESETS name o))) = Some parser).
  { destruct name; try discriminate Hn; exact Hn. }
  assert (Hthrow : forall c, parser data c = None).
  { intros c. destruct name; try discriminate Hn;
      injection Hn as <-; cbv beta delta [DeepSeek_chunkParser DifyApp_chunkParser];
      now rewrite Hj. }
  destruct (read_loop_call _ parser _ _ _ _ _ _ Hp He)
    as [c [(_ & -> & ->)|(v & c' & post' & Hc & _)]].
  - now split.
  - rewrite Hthrow in Hc. discriminate.
Qed.

End Calls.

(* ================================================================== *)
(** * The stream, buffer by buffer *)

Section Stream.
Context {RT : Runtime}.

Local Abbreviation Val := (JsVal Number).

(** The row that is held back contains no newline. *)
Lemma split_newline_last (s : string) :
  split_newline (last (split_newline s) "") = [last (split_newline s) ""].
Proof.
  induction s as [|c s IH]; [reflexivity|].
  cbn [split_newline].
  pose proof (split_newline_not_nil s) as Hne.
  destruct (Ascii.eqb c newline) eqn:Ec.
  - destruct (split_newline s) as [|r rs]; [congruence|]. exact IH.
  - destruct (split_newline s) as [|r rs]; [congruence|].
    destruct rs as [|r' rs].
    + cbn [last] in *. cbn [split_newline]. rewrite Ec, IH. reflexivity.
    + exact IH.
Qed.

(** Joining the rows of a text with newlines gives the text back. *)
Lemma concat_split_newline (s : string) :
  String.concat (String newline "") (split_newline s) = s.
Proof.
  induction s as [|c s IH]; [reflexivity|].
  cbn [split_newline].
  pose proof (split_newline_not_nil s) as Hne.
  destruct (Ascii.eqb c newline) eqn:Ec.
  - apply Ascii.eqb_eq in Ec. subst c.
    destruct (split_newline s) as [|r rs]; [congruence|].
    change (String newline (String.concat (String newline "") (r :: rs))
            = String newline s).
    now rewrite IH.
  - destruct (split_newline s) as [|r rs]; [congruence|].
    destruct rs as [|r' rs].
    + cbn [String.concat] in *. now rewrite IH.
    + change (String c (String.concat (String newline "") (r :: r' :: rs))
              = String c s).
      now rewrite IH.
Qed.

(** Buffers followed by a read that rejects: the rows that a newline
    has closed, without the row that is held back. *)
Lemma records_from_rejected (values : list (list byte)) (rest : list ReadResult)
    (u : string) :
  split_newline u = [u] ->
  records_from (map chunk values ++ ReadRejected :: rest) u
  = removelast (split_newline (u +++ texts values)).
Proof.
  revert u; induction values as [|value values IH]; intros u Hu.
  - cbn [map app records_from texts]. now rewrite append_empty_r, Hu.
  - cbn [map app records_from chunk].
    rewrite split_rows_pending. unfold read_text. cbn [texts].
    rewrite IH by apply split_newline_last.
    rewrite <- append_assoc, (split_newline_app (u +++ decode value)).
    rewrite removelast_app by apply split_newline_not_nil.
    reflexivity.
Qed.

(** X7. A read that rejects ends the run: of the text received until
    then the rows closed by a newline are the records, and the
    unfinished last row is dropped, never handed to the [for] loop. *)
Theorem rejected_read_drops_the_unfinished_row (p : Parser)
    (values : list (list byte)) (rest : list ReadResult) :
  let reader := map chunk values ++ ReadRejected :: rest in
  let closed := removelast (split_newline (texts values)) in
  records reader = closed
  /\ effects (parse p reader)
     = events_of (process_rows (options p) closed "" []).
Proof.
  intros reader closed.
  assert (Hr : records reader = closed).
  { unfold records, reader. now rewrite records_from_rejected. }
  split; [exact Hr|].
  unfold parse. rewrite effects_read_loop. unfold records in Hr.
  cbn [initial unfinishedText output context]. now rewrite Hr.
Qed.

Lemma records_joined_text (values : list (list byte))
    (value : option (list byte)) (rest : list ReadResult) :
  String.concat (String newline "")
    (records (map chunk values ++ Read true value :: rest))
  = texts values +++ read_text "" value.
Proof.
  unfold records. rewrite records_from_done. apply concat_split_newline.
Qed.

(** X8. The line-buffering decoder loses no character and invents
    none: for buffers followed by the end of the stream, the records
    joined by newlines are the decoded text. *)
Theorem records_joined_give_the_text (values : list (list byte))
    (value : option (list byte)) (rest : list ReadResult) :
  String.concat (String newline "")
    (records (map chunk values ++ Read true value :: rest))
  = texts values +++ read_text "" value.
Proof.
  unfold records. rewrite records_from_done. apply concat_split_newline.
Qed.

(** Conversely, two deliveries give the same records only if the
    buffers decode to the pieces of what the one buffer decodes to. *)
Lemma same_records_need_additive_decode (values : list (list byte))
    (whole : list byte) :
  records (map chunk values ++ [end_of_stream])
  = records [chunk whole; end_of_stream] ->
  decode whole = texts values.
Proof.
  intros H.
  apply (f_equal (String.concat (String newline ""))) in H.
  change [chunk whole; end_of_stream]
    with (map chunk [whole] ++ Read true None :: []) in H.
  unfold end_of_stream in H.
  rewrite !records_joined_text in H. cbn [texts read_text] in H.
  rewrite !append_empty_r in H. now symmetry.
Qed.

Lemma records_from_prefix (values : list (list byte)) (rest : list ReadResult)
    (u : string) :
  exists u' : string,
    records_from (map chunk values ++ rest) u
    = records_from (map chunk values ++ [ReadRejected]) u ++ records_from rest u'.
Proof.
  revert u; induction values as [|value values IH]; intros u.
  - exists u. reflexivity.
  - cbn [map app records_from chunk].
    destruct (split_rows false u (read_text u (Some value))) as [rows u1].
    destruct (IH u1) as [u' E]. exists u'.
    now rewrite E, app_assoc.
Qed.

Lemma events_of_process_rows_app o (rows1 rows2 : list string) out ctx :
  exists tail : list Event,
    events_of (process_rows o (rows1 ++ rows2) out ctx)
    = events_of (process_rows o rows1 out ctx) ++ tail.
Proof.
  rewrite process_rows_app.
  destruct (process_rows o rows1 out ctx) as [[[e1 o1] c1] f1].
  destruct f1; try (exists []; unfold events_of; cbn [fst]; now rewrite app_nil_r).
  destruct (process_rows o rows2 o1 c1) as [[[e2 o2] c2] f2].
  exists e2. reflexivity.
Qed.

(** X9. What [parse] has done by the time it has taken [n] buffers
    does not depend on what the reader returns afterwards: the calls
    and values of the run cut after these buffers are a prefix of the
    calls and values of every run that begins with them. *)
Theorem later_reads_only_append (p : Parser) (values : list (list byte))
    (rest : list ReadResult) :
  exists tail : list Event,
    effects (parse p (map chunk values ++ rest))
    = effects (parse p (map chunk values ++ [ReadRejected])) ++ tail.
Proof.
  unfold parse. rewrite !effects_read_loop.
  destruct (records_from_prefix values rest (unfinishedText initial)) as [u' E].
  rewrite E. apply events_of_process_rows_app.
Qed.

Lemma reads_app (a b : list Event) : reads (a ++ b) = reads a + reads b.
Proof.
  induction a as [|e a IH]; [reflexivity|].
  destruct e; simpl; now rewrite IH.
Qed.

Lemma is_primitive_converts (v : Val) : is_primitive v = true -> converts v = true.
Proof. now destruct v. Qed.

Lemma primitive_never_throws o (content : Val) :
  is_primitive content = true -> concat_throws o content = false.
Proof.
  intros H. unfold concat_throws. rewrite (is_primitive_converts _ H).
  now destruct (read (autoConcat o)) as [[|]|].
Qed.

(** Without a custom parser, and over fragments that convert, the
    [for] loop always runs to its end. *)
Lemma process_payloads_builtin_flow o datas out ctx :
  read (chunkParser o) = None ->
  forallb is_primitive (map (chunkContent o) datas) = true ->
  snd (process_payloads o datas out ctx) = Next.
Proof.
  intros Hp. revert out; induction datas as [|data datas IH]; intros out Hall;
    [reflexivity|].
  cbn [map forallb] in Hall. apply andb_prop in Hall. destruct Hall as [H1 H2].
  cbn [process_payloads]. unfold process_data. rewrite Hp. cbv zeta.
  rewrite (primitive_never_throws o _ H1).
  destruct (concat_output o out (chunkContent o data)) as [out1 text].
  specialize (IH out1 H2).
  now destruct (process_payloads o datas out1 ctx) as [[[e o'] c'] f].
Qed.

Lemma process_rows_builtin_flow o rows out ctx :
  read (chunkParser o) = None ->
  forallb is_primitive (fragments o rows) = true ->
  snd (process_rows o rows out ctx) = Next.
Proof.
  intros Hp Hall. rewrite process_rows_payloads.
  now apply process_payloads_builtin_flow.
Qed.

Lemma fragments_app o (rows1 rows2 : list string) :
  fragments o (rows1 ++ rows2) = fragments o rows1 ++ fragments o rows2.
Proof.
  unfold fragments, payloads, data_rows. now rewrite filter_app, !map_app.
Qed.

Lemma reads_read_loop_builtin o (values : list (list byte))
    (value : option (list byte)) (rest : list ReadResult) (vars : Vars) :
  read (chunkParser o) = None ->
  forallb is_primitive
    (fragments o
       (records_from (map chunk values ++ Read true value :: rest)
          (unfinishedText vars))) = true ->
  reads (read_loop o (map chunk values ++ Read true value :: rest) vars)
  = S (List.length values).
Proof.
  intros Hp. revert vars; induction values as [|v values IH]; intros vars Hall.
  - cbn [map app read_loop List.length]. unfold iteration.
    rewrite split_rows_done.
    pose proof (reads_process_rows o
                  (split_newline (read_text (unfinishedText vars) value))
                  (output vars) (context vars)) as Hr.
    destruct (process_rows o
                (split_newline (read_text (unfinishedText vars) value))
                (output vars) (context vars)) as [[[e o'] c'] f].
    unfold events_of in Hr; cbn [fst] in Hr.
    destruct f; cbn [reads]; now rewrite Hr.
  - cbn [map app read_loop chunk List.length]. unfold iteration.
    cbn [map app records_from chunk] in Hall.
    destruct (split_rows false (unfinishedText vars)
                (read_text (unfinishedText vars) (Some v))) as [rows u'].
    rewrite fragments_app, forallb_app in Hall.
    apply andb_prop in Hall. destruct Hall as [Hrows Hrest].
    pose proof (reads_process_rows o rows (output vars) (context vars)) as Hr.
    pose proof (process_rows_builtin_flow o rows (output vars) (context vars)
                  Hp Hrows) as Hf.
    destruct (process_rows o rows (output vars) (context vars)) as [[[e o'] c'] f].
    unfold events_of in Hr; cbn [fst snd] in *. subst f.
    cbn [reads]. rewrite reads_app, Hr, IH; [reflexivity | exact Hrest].
Qed.

(** X10. Without a custom parser, and with fragments that are no
    objects or arrays (whose conversion to a string could throw), no
    record can end the stream early: malformed or not, with the path
    or without, [parse] reads every buffer up to the read that reports
    [done], that read included, and no further. *)
Theorem builtin_extraction_reads_the_whole_stream (p : Parser)
    (values : list (list byte)) (value : option (list byte))
    (rest : list ReadResult) :
  let reader := map chunk values ++ Read true value :: rest in
  read (chunkParser (options p)) = None ->
  forallb is_primitive (fragments (options p) (records reader)) = true ->
  reads (parse p reader) = S (List.length values).
Proof.
  intros reader Hp Hall. unfold parse.
  now apply reads_read_loop_builtin.
Qed.

Lemma builtin_values_standalone o (datas : list string) (out : string) :
  read (autoConcat o) <> Some true ->
  builtin_values o out datas = map (fun data => shape o (chunkContent o data)) datas.
Proof.
  intros Ha. revert out; induction datas as [|data datas IH]; intros out;
    [reflexivity|].
  cbn [builtin_values map]. cbv zeta.
  rewrite (concat_throws_standalone _ _ Ha). unfold concat_output.
  destruct (read (autoConcat o)) as [[|]|]; [congruence| |]; now rewrite IH.
Qed.

(** X1. Without accumulation (an [autoConcat] that is false or
    undefined) and without a custom parser, the k-th value is the
    shaped k-th fragment alone, as [JSON.parse] and [get] returned it:
    it depends on no other record, and it need not be a string. *)
Theorem standalone_values_are_the_fragments (p : Parser)
    (reader : list ReadResult) :
  read (chunkParser (options p)) = None ->
  read (autoConcat (options p)) <> Some true ->
  yielded (parse p reader)
  = map (shape (options p)) (fragments (options p) (records reader)).
Proof.
  intros Hp Ha. rewrite (yielded_builtin p reader Hp).
  rewrite builtin_values_standalone by exact Ha.
  unfold fragments. now rewrite map_map.
Qed.

(** X11. The defaults of the constructor fill only the keys the caller
    leaves out. An [autoConcat] that is present and [undefined]
    replaces the default [true], and the parser then yields each
    fragment alone; the same bundle without the key accumulates. *)
Theorem explicit_undefined_replaces_the_default (o : ParserOption)
    (reader : list ReadResult) :
  read (chunkParser o) = None ->
  (autoConcat o = Undef ->
   yielded (parse (new_Parser o) reader)
   = map (shape (options (new_Parser o)))
       (fragments (options (new_Parser o)) (records reader)))
  /\ (autoConcat o = Absent ->
      forall (k : nat) (v : Val),
        nth_error (yielded (parse (new_Parser o) reader)) k = Some v ->
        emitted_text v
        = Some (concat_fragments
                  (firstn (S k)
                     (fragments (options (new_Parser o)) (records reader))))).
Proof.
  intros Hp.
  assert (Hp' : read (chunkParser (options (new_Parser o))) = None).
  { cbn. now destruct (chunkParser o). }
  split; intros Ha.
  - rewrite (yielded_builtin _ reader Hp').
    rewrite builtin_values_standalone by (cbn; rewrite Ha; discriminate).
    unfold fragments. now rewrite map_map.
  - intros k v Hk. rewrite (yielded_builtin _ reader Hp') in Hk.
    unfold fragments, concat_fragments.
    apply builtin_values_nth_concat; [|exact Hk].
    cbn. now rewrite Ha.
Qed.

End Stream.

(* ================================================================== *)
(** * The parsers of the presets *)

Section PresetParsers.
Context {RT : Runtime}.

Local Abbreviation Val := (JsVal Number).

Lemma obj_get_set_same (props : list (string * Val)) (k : string) (v : Val) :
  obj_get (obj_set props k v) k = v.
Proof.
  induction props as [|[k' v'] props IH]; cbn [obj_set obj_get].
  - now rewrite String.eqb_refl.
  - destruct (String.eqb k' k) eqn:E.
    + cbn [obj_get]. now rewrite String.eqb_refl.
    + destruct (precedes k k' && negb (has_key props k)); cbn [obj_get].
      * now rewrite String.eqb_refl.
      * now rewrite E.
Qed.

Lemma obj_get_set_other (props : list (string * Val)) (k k' : string) (v : Val) :
  k' <> k -> obj_get (obj_set props k v) k' = obj_get props k'.
Proof.
  intros Hne.
  assert (Hk : String.eqb k k' = false) by (apply String.eqb_neq; congruence).
  induction props as [|[k0 v0] props IH]; cbn [obj_set obj_get].
  - now rewrite Hk.
  - destruct (String.eqb k0 k) eqn:E.
    + apply String.eqb_eq in E. subst k0. cbn [obj_get]. now rewrite Hk.
    + destruct (precedes k k0 && negb (has_key props k)); cbn [obj_get].
      * now rewrite Hk.
      * destruct (String.eqb k0 k'); [reflexivity | exact IH].
Qed.

Lemma js_or_cases (v w : Val) : js_or v w = w \/ truthy (js_or v w) = true.
Proof. unfold js_or. destruct (truthy v) eqn:E; [right; exact E | now left]. Qed.

Lemma DifyApp_update_current (obj : Val) (path : list string)
    (ctx ctx' : ParseContext) :
  DifyApp_update obj path ctx = Some ctx' ->
  (forall k : string, k <> "current" -> obj_get ctx' k = obj_get ctx k)
  /\ (obj_get ctx' "current" = obj_get ctx "current"
      \/ truthy (obj_get ctx' "current") = true).
Proof.
  unfold DifyApp_update. destruct (members obj path) as [v|]; [|discriminate].
  intros H; injection H as <-. split.
  - intros k Hk. now apply obj_get_set_other.
  - rewrite obj_get_set_same. apply js_or_cases.
Qed.

Lemma DifyApp_step (chunk : string) (ctx ctx' : ParseContext) (result : Val) :
  DifyApp_chunkParser chunk ctx = Some (result, ctx') ->
  result = obj_get ctx' "current"
  /\ (forall k : string, k <> "current" -> obj_get ctx' k = obj_get ctx k)
  /\ (result = obj_get ctx "current" \/ truthy result = true).
Proof.
  unfold DifyApp_chunkParser.
  destruct (JSON_parse (trim chunk)) as [parsed|]; [|discriminate].
  set (obj := js_or parsed (VObj [])).
  assert (Hfinish : forall c : option ParseContext,
             match c with
             | Some context' => Some (obj_get context' "current", context')
             | None => None
             end = Some (result, ctx') ->
             c = Some ctx' /\ result = obj_get ctx' "current").
  { intros [c|] H; [|discriminate]. injection H as <- <-. now split. }
  assert (Hupdate : forall path,
             match DifyApp_update obj path ctx with
             | Some context' => Some (obj_get context' "current", context')
             | None => None
             end = Some (result, ctx') ->
             result = obj_get ctx' "current"
             /\ (forall k : string, k <> "current" -> obj_get ctx' k = obj_get ctx k)
             /\ (result = obj_get ctx "current" \/ truthy result = true)).
  { intros path H. apply Hfinish in H. destruct H as [Hu ->].
    apply DifyApp_update_current in Hu. destruct Hu as [Hk Hc].
    split; [reflexivity|]. split; assumption. }
  assert (Hsame : Some (obj_get ctx "current", ctx) = Some (result, ctx') ->
             result = obj_get ctx' "current"
             /\ (forall k : string, k <> "current" -> obj_get ctx' k = obj_get ctx k)
             /\ (result = obj_get ctx "current" \/ truthy result = true)).
  { intros H. injection H as <- <-. split; [reflexivity|].
    split; [reflexivity | now left]. }
  destruct (member obj "event") as [event|]; [|discriminate].
  destruct (is_string event "node_started").
  - destruct (members obj ["data"; "node_type"]) as [node_type|]; [|discriminate].
    destruct (negb (is_string node_type "start")); [apply Hupdate|].
    destruct (is_string event "iteration_started" || is_string event "iteration_next");
      [apply Hupdate|].
    destruct (is_string event "node_finished"); [apply Hupdate | apply Hsame].
  - destruct (is_string event "iteration_started" || is_string event "iteration_next");
      [apply Hupdate|].
    destruct (is_string event "node_finished"); [apply Hupdate | apply Hsame].
Qed.

Lemma DifyApp_update_candidate (obj : Val) (path : list string)
    (ctx ctx' : ParseContext) :
  DifyApp_update obj path ctx = Some ctx' ->
  exists candidate : Val,
    members obj path = Some candidate
    /\ obj_get ctx' "current"
       = (if truthy candidate then candidate else obj_get ctx "current").
Proof.
  unfold DifyApp_update. destruct (members obj path) as [v|]; [|discriminate].
  intros H; injection H as <-. exists v. split; [reflexivity|].
  now rewrite obj_get_set_same.
Qed.

(** What the parser returns is decided by the candidate of the event. *)
Lemma DifyApp_step_candidate (chunk : string) (ctx ctx' : ParseContext)
    (result : Val) :
  DifyApp_chunkParser chunk ctx = Some (result, ctx') ->
  exists parsed : Val,
    JSON_parse (trim chunk) = Some parsed
    /\ match DifyApp_candidate (js_or parsed (VObj [])) with
       | Some path =>
           exists candidate : Val,
             members (js_or parsed (VObj [])) path = Some candidate
             /\ result = (if truthy candidate then candidate
                          else obj_get ctx "current")
       | None => result = obj_get ctx "current" /\ ctx' = ctx
       end.
Proof.
  unfold DifyApp_chunkParser, DifyApp_candidate.
  destruct (JSON_parse (trim chunk)) as [parsed|]; [|discriminate].
  intros H. exists parsed. split; [reflexivity|]. revert H.
  set (obj := js_or parsed (VObj [])).
  assert (Hupdate : forall path,
             match DifyApp_update obj path ctx with
             | Some context' => Some (obj_get context' "current", context')
             | None => None
             end = Some (result, ctx') ->
             exists candidate : Val,
               members obj path = Some candidate
               /\ result = (if truthy candidate then candidate
                            else obj_get ctx "current")).
  { intros path H.
    destruct (DifyApp_update obj path ctx) as [c|] eqn:Eu; [|discriminate].
    injection H as <- <-. now apply DifyApp_update_candidate. }
  assert (Hsame : Some (obj_get ctx "current", ctx) = Some (result, ctx') ->
             result = obj_get ctx "current" /\ ctx' = ctx).
  { intros H. injection H as <- <-. now split. }
  destruct (member obj "event") as [event|]; [|discriminate].
  destruct (is_string event "node_started"); cbn [andb].
  - destruct (members obj ["data"; "node_type"]) as [node_type|]; [|discriminate].
    destruct (negb (is_string node_type "start")); [apply Hupdate|].
    destruct (is_string event "iteration_started" || is_string event "iteration_next");
      [apply Hupdate|].
    destruct (is_string event "node_finished"); [apply Hupdate | apply Hsame].
  - destruct (is_string event "iteration_started" || is_string event "iteration_next");
      [apply Hupdate|].
    destruct (is_string event "node_finished"); [apply Hupdate | apply Hsame].
Qed.

(** X12. The DifyApp parser returns the [current] of the context as it
    leaves it and touches no other key. The event decides the
    candidate: the title of a node that starts (unless its type is
    [start]) or of an iteration that starts or moves on, the output of
    a node that finishes. The value returned is the candidate when it
    is truthy and the previous [current] when it is falsy: a falsy
    candidate never replaces what was there; and an event without a
    candidate leaves the context as it was. *)
Theorem DifyApp_keeps_current_on_a_falsy_candidate (chunk : string)
    (ctx ctx' : ParseContext) (result : Val) :
  DifyApp_chunkParser chunk ctx = Some (result, ctx') ->
  result = obj_get ctx' "current"
  /\ (forall k : string, k <> "current" -> obj_get ctx' k = obj_get ctx k)
  /\ (result = obj_get ctx "current" \/ truthy result = true)
  /\ exists parsed : Val,
       JSON_parse (trim chunk) = Some parsed
       /\ match DifyApp_candidate (js_or parsed (VObj [])) with
          | Some path =>
              exists candidate : Val,
                members (js_or parsed (VObj [])) path = Some candidate
                /\ result = (if truthy candidate then candidate
                             else obj_get ctx "current")
          | None => result = obj_get ctx "current" /\ ctx' = ctx
          end.
Proof.
  intros H. destruct (DifyApp_step _ _ _ _ H) as (H1 & H2 & H3).
  repeat split; try assumption.
  now apply DifyApp_step_candidate.
Qed.

Lemma DifyApp_run_stays_truthy (ctx : ParseContext) (datas : list string) :
  truthy (obj_get ctx "current") = true ->
  Forall (fun w : Val => truthy w = true)
    (yielded (custom_run DifyApp_chunkParser ctx datas)).
Proof.
  revert ctx; induction datas as [|data datas IH]; intros ctx Hc; [constructor|].
  cbn [custom_run].
  destruct (DifyApp_chunkParser data ctx) as [[result ctx']|] eqn:E; [|constructor].
  apply DifyApp_step in E.
  destruct E as (Hr & _ & Hold).
  assert (Ht : truthy result = true).
  { destruct Hold as [->|H]; assumption. }
  cbn [yielded]. constructor; [exact Ht|].
  destruct (instanceof_Error result); [constructor|].
  apply IH. now rewrite <- Hr.
Qed.

Lemma DifyApp_run_sticky (ctx : ParseContext) (datas : list string)
    (pre post : list Val) (v : Val) :
  yielded (custom_run DifyApp_chunkParser ctx datas) = pre ++ v :: post ->
  truthy v = true ->
  Forall (fun w : Val => truthy w = true) post.
Proof.
  intros He Hv. revert ctx pre He.
  induction datas as [|data datas IH]; intros ctx pre He.
  - destruct pre; discriminate.
  - cbn [custom_run] in He.
    destruct (DifyApp_chunkParser data ctx) as [[result ctx']|] eqn:E.
    + cbn [yielded] in He.
      apply DifyApp_step in E.
      destruct E as (Hr & _ & _).
      destruct pre as [|x pre].
      * injection He as -> <-.
        destruct (instanceof_Error v); [constructor|].
        apply DifyApp_run_stays_truthy. now rewrite <- Hr.
      * injection He as _ He.
        destruct (instanceof_Error result).
        -- destruct pre; discriminate.
        -- exact (IH ctx' pre He).
    + destruct pre; discriminate.
Qed.

(** X13. With the DifyApp preset a title, once shown, never goes
    blank: after a truthy value has been yielded, every later value of
    the stream is truthy too, whatever the later events hold. *)
Theorem DifyApp_values_stay_truthy (o : ParserOption) (reader : list ReadResult)
    (pre post : list Val) (v : Val) :
  yielded (parse (Parser_PRESETS DifyApp o) reader) = pre ++ v :: post ->
  truthy v = true ->
  Forall (fun w : Val => truthy w = true) post.
Proof.
  rewrite <- yielded_effects.
  rewrite (effects_parse_custom _ DifyApp_chunkParser) by reflexivity.
  apply DifyApp_run_sticky.
Qed.

Lemma keyed_by_content_empty : keyed_by_content [].
Proof. intros key. now left. Qed.

Lemma truthy_keyed (ctx : ParseContext) (key : string) :
  keyed_by_content ctx ->
  truthy (obj_get ctx key) = true ->
  exists n : nat, obj_get ctx key = VStr (repeat_string key (S n)).
Proof.
  intros Hk Ht. destruct (Hk key) as [H|H]; [|exact H].
  rewrite H in Ht. discriminate.
Qed.

Lemma DeepSeek_step (chunk : string) (ctx ctx' : ParseContext) (result : Val) :
  DeepSeek_chunkParser chunk ctx = Some (result, ctx') ->
  result = VObj ctx'
  /\ (keyed_by_content ctx -> keyed_by_content ctx')
  /\ exists obj : Val,
       JSON_parse (trim chunk) = Some obj
       /\ let content := get obj "choices[0].delta.content" in
          (truthy content = false -> ctx' = ctx)
          /\ (forall k : string,
                k <> ToString content -> obj_get ctx' k = obj_get ctx k).
Proof.
  unfold DeepSeek_chunkParser.
  destruct (JSON_parse (trim chunk)) as [obj|]; [|discriminate].
  set (content := get obj "choices[0].delta.content").
  set (key := ToString content).
  destruct (truthy content) eqn:Et.
  - destruct (converts content); cbn [negb]; [|discriminate].
    intros H. injection H as <- <-. split; [reflexivity|].
    split.
    + intros Hk k.
      destruct (String.eqb key k) eqn:Ek.
      * apply String.eqb_eq in Ek. subst k. right.
        rewrite obj_get_set_same. unfold js_concat. fold key.
        destruct (truthy (obj_get ctx key)) eqn:Ex; cbn [negb].
        -- destruct (truthy_keyed ctx key Hk Ex) as [n Hn].
           rewrite Hn. exists (S n). reflexivity.
        -- rewrite obj_get_set_same. exists 0. reflexivity.
      * apply String.eqb_neq in Ek.
        rewrite obj_get_set_other by congruence.
        destruct (negb (truthy (obj_get ctx key)));
          [rewrite obj_get_set_other by congruence|]; apply Hk.
    + exists obj. split; [reflexivity|]. cbv zeta. fold content. split.
      * rewrite Et. discriminate.
      * intros k Hne. fold key in Hne.
        rewrite obj_get_set_other by exact Hne.
        destruct (negb (truthy (obj_get ctx key)));
          [now rewrite obj_get_set_other by exact Hne | reflexivity].
  - intros H. injection H as <- <-. split; [reflexivity|].
    split; [tauto|].
    exists obj. split; [reflexivity|]. cbv zeta. split; reflexivity.
Qed.

(** X14. For content that names no member of [Object.prototype], the
    DeepSeek parser returns the context itself. A record whose content
    is falsy leaves the context as it was; a record with content
    touches only the key that is the content's string; and the context
    keeps the shape the code gives it: every key holds that key written
    once per record that carried it. *)
Theorem DeepSeek_keys_the_context_by_content (chunk : string)
    (ctx ctx' : ParseContext) (result : Val) :
  plain_content chunk = true ->
  DeepSeek_chunkParser chunk ctx = Some (result, ctx') ->
  result = VObj ctx'
  /\ (keyed_by_content ctx -> keyed_by_content ctx')
  /\ exists obj : Val,
       JSON_parse (trim chunk) = Some obj
       /\ let content := get obj "choices[0].delta.content" in
          (truthy content = false -> ctx' = ctx)
          /\ (forall k : string,
                k <> ToString content -> obj_get ctx' k = obj_get ctx k).
Proof. intros _. apply DeepSeek_step. Qed.

Lemma DeepSeek_run_keyed (ctx : ParseContext) (datas : list string) :
  keyed_by_content ctx ->
  Forall (fun v : Val => exists c : ParseContext, v = VObj c /\ keyed_by_content c)
    (yielded (custom_run DeepSeek_chunkParser ctx datas)).
Proof.
  revert ctx; induction datas as [|data datas IH]; intros ctx Hk; [constructor|].
  cbn [custom_run].
  destruct (DeepSeek_chunkParser data ctx) as [[result ctx']|] eqn:E; [|constructor].
  apply DeepSeek_step in E.
  destruct E as (-> & Hk' & _).
  cbn [yielded instanceof_Error]. constructor.
  - exists ctx'. split; [reflexivity | exact (Hk' Hk)].
  - apply IH. exact (Hk' Hk).
Qed.

Lemma filed_snoc (key : string) (seen : list string) (data : string) :
  filed key (seen ++ [data])
  = filed key seen + (if files_under key data then 1 else 0).
Proof.
  unfold filed. rewrite filter_app, length_app. cbn [filter].
  now destruct (files_under key data).
Qed.

Lemma falsy_filed_value (key : string) (n : nat) :
  truthy (filed_value key n) = false -> repeat_string key n = "".
Proof.
  destruct n as [|n]; [reflexivity|].
  cbn [filed_value truthy]. intros H.
  apply negb_false_iff, String.eqb_eq in H. exact H.
Qed.

Lemma truthy_filed_value (key : string) (n : nat) :
  truthy (filed_value key n) = true ->
  filed_value key n = VStr (repeat_string key n).
Proof. destruct n as [|n]; [discriminate | reflexivity]. Qed.

(** One call files the payload: the context holds, under every key,
    that key once per payload filed under it so far. *)
Lemma DeepSeek_step_filed (data : string) (seen : list string)
    (ctx ctx' : ParseContext) (result : Val) :
  DeepSeek_chunkParser data ctx = Some (result, ctx') ->
  (forall key, obj_get ctx key = filed_value key (filed key seen)) ->
  result = VObj ctx'
  /\ forall key, obj_get ctx' key = filed_value key (filed key (seen ++ [data])).
Proof.
  unfold DeepSeek_chunkParser. intros H Hinv.
  assert (Hfiles : forall key, files_under key data
            = match JSON_parse (trim data) with
              | Some obj =>
                  truthy (get obj "choices[0].delta.content")
                  && String.eqb (ToString (get obj "choices[0].delta.content")) key
              | None => false
              end) by reflexivity.
  destruct (JSON_parse (trim data)) as [obj|]; [|discriminate].
  set (content := get obj "choices[0].delta.content") in *.
  set (key0 := ToString content) in *.
  destruct (truthy content) eqn:Et.
  - destruct (converts content); cbn [negb] in H; [|discriminate].
    injection H as <- <-. split; [reflexivity|].
    intros key. rewrite filed_snoc, Hfiles. cbn [andb].
    destruct (String.eqb key0 key) eqn:Ek.
    + apply String.eqb_eq in Ek. subst key.
      rewrite obj_get_set_same. unfold js_concat. fold key0.
      rewrite Nat.add_1_r. cbn [filed_value repeat_string].
      destruct (truthy (obj_get ctx key0)) eqn:Ex; cbn [negb].
      * rewrite Hinv in *. now rewrite (truthy_filed_value _ _ Ex).
      * rewrite obj_get_set_same. cbn [ToString].
        rewrite Hinv in Ex. now rewrite (falsy_filed_value _ _ Ex).
    + apply String.eqb_neq in Ek. rewrite Nat.add_0_r.
      rewrite obj_get_set_other by congruence.
      destruct (negb (truthy (obj_get ctx key0)));
        [rewrite obj_get_set_other by congruence|]; apply Hinv.
  - injection H as <- <-. split; [reflexivity|].
    intros key. rewrite filed_snoc, Hfiles. cbn [andb].
    now rewrite Nat.add_0_r.
Qed.

Lemma DeepSeek_run_filed (ctx : ParseContext) (seen datas : list string)
    (k : nat) (v : Val) :
  (forall key, obj_get ctx key = filed_value key (filed key seen)) ->
  nth_error (yielded (custom_run DeepSeek_chunkParser ctx datas)) k = Some v ->
  exists c : ParseContext,
    v = VObj c
    /\ forall key,
         obj_get c key = filed_value key (filed key (seen ++ firstn (S k) datas)).
Proof.
  revert ctx seen k; induction datas as [|data datas IH]; intros ctx seen k Hinv Hk.
  - destruct k; discriminate.
  - cbn [custom_run] in Hk.
    destruct (DeepSeek_chunkParser data ctx) as [[result ctx']|] eqn:E;
      [|destruct k; discriminate].
    destruct (DeepSeek_step_filed _ seen _ _ _ E Hinv) as [-> Hinv'].
    cbn [yielded instanceof_Error] in Hk.
    destruct k as [|k]; cbn [nth_error] in Hk.
    + injection Hk as <-. exists ctx'. split; [reflexivity|]. exact Hinv'.
    + destruct (IH ctx' (seen ++ [data]) k Hinv' Hk) as [c [Hc Hfiled]].
      exists c. split; [exact Hc|]. intros key.
      rewrite Hfiled, <- app_assoc. reflexivity.
Qed.

(** X15. On a stream whose contents name no member of
    [Object.prototype], the k-th value the DeepSeek preset yields is
    the context object as the first k records have left it: under
    every key it holds that key written once per record, among these
    k, whose truthy content has the key as its string, and nothing
    under a key that none of them carried. The content of a record is
    thus filed under its own text, not under a field that tells
    thinking from answer. *)
Theorem DeepSeek_values_are_keyed_by_content (o : ParserOption)
    (reader : list ReadResult) :
  forallb plain_content (payloads (records reader)) = true ->
  Forall (fun v : Val => exists c : ParseContext, v = VObj c /\ keyed_by_content c)
    (yielded (parse (Parser_PRESETS DeepSeek o) reader))
  /\ forall (k : nat) (v : Val),
       nth_error (yielded (parse (Parser_PRESETS DeepSeek o) reader)) k = Some v ->
       exists c : ParseContext,
         v = VObj c
         /\ forall key : string,
              obj_get c key
              = filed_value key
                  (filed key (firstn (S k) (payloads (records reader)))).
Proof.
  intros _. rewrite <- yielded_effects.
  rewrite (effects_parse_custom _ DeepSeek_chunkParser) by reflexivity.
  split.
  - apply DeepSeek_run_keyed, keyed_by_content_empty.
  - intros k v Hk.
    apply (DeepSeek_run_filed [] [] _ k v); [|exact Hk].
    intros key. reflexivity.
Qed.

End PresetParsers.

(* ================================================================== *)
(** * Bounds on what a run hands on and yields *)

Section Bounds.
Context {RT : Runtime}.

Local Abbreviation Val := (JsVal Number).

Lemma fold_left_js_concat_strings (l : list string) (out : string) :
  fold_left js_concat (map VStr l) out = out +++ String.concat "" l.
Proof.
  revert out; induction l as [|x l IH]; intros out.
  - cbn. now rewrite append_empty_r.
  - cbn [map fold_left]. rewrite IH. unfold js_concat. cbn [ToString].
    rewrite append_assoc. f_equal.
    destruct l as [|y l]; [cbn; now rewrite append_empty_r | reflexivity].
Qed.

Lemma chunkContent_text o (datas : list string) :
  read (chunkType o) = Some CT_text ->
  map (chunkContent o) datas = map VStr datas.
Proof.
  intros Ht. apply map_ext. intros data. unfold chunkContent. now rewrite Ht.
Qed.

(** X17. With [chunkType] ['text'], accumulation and no custom parser,
    the text of the k-th value is the first k payloads written one
    after the other exactly as they stand in their records: nothing is
    parsed, trimmed or put between them. *)
Theorem text_mode_accumulates_the_payloads (p : Parser) (reader : list ReadResult) :
  read (chunkParser (options p)) = None ->
  read (chunkType (options p)) = Some CT_text ->
  read (autoConcat (options p)) = Some true ->
  forall (k : nat) (v : Val),
    nth_error (yielded (parse p reader)) k = Some v ->
    emitted_text v
    = Some (String.concat "" (firstn (S k) (payloads (records reader)))).
Proof.
  intros Hp Ht Ha k v Hk. rewrite (yielded_builtin p reader Hp) in Hk.
  rewrite (builtin_values_nth_concat _ _ _ _ _ Ha Hk).
  rewrite (chunkContent_text _ _ Ht), firstn_map.
  now rewrite fold_left_js_concat_strings.
Qed.

Lemma custom_run_yields_at_most (parser : ChunkParser) (ctx : ParseContext)
    (datas : list string) :
  List.length (yielded (custom_run parser ctx datas)) <= List.length datas.
Proof.
  revert ctx; induction datas as [|data datas IH]; intros ctx; [apply le_n|].
  cbn [custom_run].
  destruct (parser data ctx) as [[result ctx']|]; [|cbn; lia].
  cbn [yielded List.length].
  destruct (instanceof_Error result); [cbn; lia|].
  specialize (IH ctx'). lia.
Qed.

(** X18. Whatever the options, a run yields at most one value per
    record that begins with [data:]; it yields none when the stream
    has no such record. *)
Theorem at_most_one_value_per_data_record (p : Parser) (reader : list ReadResult) :
  List.length (yielded (parse p reader))
  <= List.length (data_rows (records reader)).
Proof.
  destruct (read (chunkParser (options p))) as [parser|] eqn:Hp.
  - rewrite <- yielded_effects, (effects_parse_custom p parser reader Hp).
    unfold payloads.
    pose proof (custom_run_yields_at_most parser []
                  (map (substring_from 5) (data_rows (records reader)))) as H.
    now rewrite length_map in H.
  - rewrite (yielded_builtin p reader Hp).
    pose proof (builtin_values_length_le (options p) ""
                  (payloads (records reader))) as H.
    unfold payloads in *. now rewrite length_map in H.
Qed.

(** Every row of a split text is free of newlines. *)
Lemma split_newline_rows (s : string) :
  Forall (fun row => split_newline row = [row]) (split_newline s).
Proof.
  induction s as [|c s IH]; [now repeat constructor|].
  cbn [split_newline].
  destruct (Ascii.eqb c newline) eqn:Ec.
  - constructor; [reflexivity | exact IH].
  - pose proof (split_newline_not_nil s) as Hne.
    destruct (split_newline s) as [|r rs]; [congruence|].
    inversion IH as [|? ? Hr Hrs]; subst.
    constructor; [|exact Hrs].
    cbn [split_newline]. now rewrite Ec, Hr.
Qed.

Lemma Forall_removelast {A : Type} (P : A -> Prop) (l : list A) :
  Forall P l -> Forall P (removelast l).
Proof.
  induction l as [|x l IH]; intros H; [constructor|].
  inversion H as [|? ? Hx Hl]; subst.
  destruct l as [|y l]; [constructor|].
  cbn [removelast]. constructor; [exact Hx | now apply IH].
Qed.

Lemma records_from_rows (reader : list ReadResult) (u : string) :
  Forall (fun row => split_newline row = [row]) (records_from reader u).
Proof.
  revert u; induction reader as [|r reader IH]; intros u.
  - cbn [records_from]. rewrite split_rows_done. apply split_newline_rows.
  - destruct r as [done value|]; [|constructor].
    cbn [records_from]. destruct done.
    + rewrite split_rows_done. apply split_newline_rows.
    + rewrite split_rows_pending. apply Forall_app. split.
      * apply Forall_removelast, split_newline_rows.
      * apply IH.
Qed.

Lemma substring_from_no_newline (n : nat) (s : string) :
  split_newline s = [s] -> split_newline (substring_from n s) = [substring_from n s].
Proof.
  revert s; induction n as [|n IH]; intros s Hs; [exact Hs|].
  destruct s as [|c s]; [reflexivity|].
  cbn [substring_from]. apply IH.
  cbn [split_newline] in Hs.
  destruct (Ascii.eqb c newline); [discriminate|].
  destruct (split_newline s) as [|r rs] eqn:E.
  - now destruct (split_newline_not_nil s).
  - injection Hs as Hr Hrs. now subst.
Qed.

(** X19. No record and no payload ever contains a newline, however the
    reads cut the text: what reaches the extraction or the custom
    parser is always within one line. *)
Theorem records_and_payloads_hold_no_newline (reader : list ReadResult) :
  Forall (fun row => split_newline row = [row]) (records reader)
  /\ Forall (fun data => split_newline data = [data]) (payloads (records reader)).
Proof.
  assert (Hr : Forall (fun row => split_newline row = [row]) (records reader))
    by apply records_from_rows.
  split; [exact Hr|].
  unfold payloads, data_rows. apply Forall_map.
  rewrite Forall_forall in *. intros row Hin.
  apply filter_In in Hin. destruct Hin as [Hin _].
  apply substring_from_no_newline. now apply Hr.
Qed.

End Bounds.

(* ================================================================== *)
(** * Runs on the sample runtime *)

Import Sample.

#[local] Existing Instance runtime.

(** C1. The options say that [outputType] defaults to ['text'], so a
    parser built from [{}] should yield the string [hi] for the record
    [data:] followed by the JSON object with [content] set to [hi]. It
    yields the object that wraps [hi] under [text]: [defaultOptions]
    has no [outputType]. *)
Theorem default_outputType_is_not_text :
  yielded (@parse runtime (new_Parser no_options)
             [chunk (bytes (line ("data:" +++ json_member "content" "hi")));
              end_of_stream])
  = [VObj [("text", VStr "hi")]].
Proof. vm_compute. reflexivity. Qed.

(** With [outputType] given as ['text'] the same stream yields the
    string. *)
Example explicit_text_outputType :
  yielded (@parse runtime
             (new_Parser
                {| chunkParser := Absent; chunkType := Absent;
                   contentPath := Absent; autoConcat := Absent;
                   outputType := Has OT_text; validateChunk := Absent |})
             [chunk (bytes (line ("data:" +++ json_member "content" "hi")));
              end_of_stream])
  = [VStr "hi"].
Proof. vm_compute. reflexivity. Qed.

(** The end-to-end example of the specification: two OpenAI deltas
    [A] and [B] yield [A] and [AB]. *)
Example openai_accumulates :
  yielded (@parse runtime (Parser_PRESETS OpenAi no_options)
             [chunk (bytes (line ("data:" +++ openai_delta "A")
                            +++ line ("data:" +++ openai_delta "B")));
              end_of_stream])
  = [VStr "A"; VStr "AB"].
Proof. vm_compute. reflexivity. Qed.

(** A record split across two reads, and a last record that no
    newline ends. *)
Example split_and_trailing_records :
  yielded (@parse runtime (new_Parser text_options)
             [chunk (bytes (line "data:a" +++ "da"));
              chunk (bytes (line "ta:b" +++ "data:c"));
              end_of_stream])
  = [VObj [("text", VStr "a")]; VObj [("text", VStr "ab")];
     VObj [("text", VStr "abc")]].
Proof. vm_compute. reflexivity. Qed.


(** A text cut inside a record and inside the prefix of another: two
    buffers that decode to the pieces of what one buffer decodes to. *)
Lemma line_reassembly_is_split_invariant_witness :
  let values := [bytes (line "data:a" +++ "da"); bytes (line "ta:b" +++ "data:c")] in
  let whole := bytes (line "data:a" +++ line "data:b" +++ "data:c") in
  @decode runtime whole = @texts runtime values
  /\ (@records runtime (map chunk values ++ [end_of_stream])
      = @records runtime [chunk whole; end_of_stream]
      /\ forall p : @Parser runtime,
           effects (parse p (map chunk values ++ [end_of_stream]))
           = effects (parse p [chunk whole; end_of_stream])).
Proof.
  intros values whole.
  split; [reflexivity|].
  apply (@line_reassembly_is_split_invariant runtime values whole); reflexivity.
Defined.

(** A payload that is not JSON, and one that parses but has no
    [content], under the default JSON extraction. *)
Lemma malformed_json_is_an_empty_fragment_witness :
  let o := options (@new_Parser runtime json_options) in
  read (chunkParser o) = None
  /\ read (chunkType o) = Some CT_json
  /\ @JSON_parse runtime (trim "{oops") = None
  /\ @chunkContent runtime o "{oops" = VStr ""
  /\ @JSON_parse runtime (trim (json_member "answer" "x"))
     = Some (VObj [("answer", VStr "x")])
  /\ @chunkContent runtime o (json_member "answer" "x") = VStr "".
Proof.
  intros o.
  split; [reflexivity|]. split; [reflexivity|]. split; [reflexivity|].
  split.
  - apply (@malformed_json_is_an_empty_fragment runtime o "{oops");
      reflexivity.
  - split; [reflexivity|].
    apply (proj2 (@malformed_json_is_an_empty_fragment runtime o
                    (json_member "answer" "x") eq_refl eq_refl)
             (VObj [("answer", VStr "x")])); reflexivity.
Defined.

(** A custom parser that rejects the second of three records, with a
    further buffer waiting in the reader: the run stops after the
    error. *)
Lemma custom_parser_error_ends_the_run_witness :
  let p := @new_Parser runtime rejecting_options in
  let reader :=
    [chunk (bytes (line "data:ok" +++ line "data:bad" +++ line "data:late"));
     chunk (bytes (line "data:later"));
     end_of_stream] in
  let pre := [ERead; ECall "ok" (Some (VStr "ok")); EYield (VStr "ok")] in
  let v : JsVal Z := VError "bad chunk" in
  let post := [EYield v] in
  parse p reader = pre ++ ECall "bad" (Some v) :: post
  /\ instanceof_Error v = true
  /\ post = [EYield v].
Proof.
  intros p reader pre v post.
  split; [reflexivity|]. split; [reflexivity|].
  apply (@custom_parser_error_ends_the_run runtime p reader pre post "bad" v);
    reflexivity.
Defined.

(** Options without a custom parser and with a [validateChunk] that
    rejects every chunk. *)
Lemma validateChunk_is_never_consulted_witness :
  let reader :=
    [chunk (bytes (line ("data:" +++ json_member "content" "hi")));
     end_of_stream] in
  read (chunkParser json_options) = None
  /\ (parse (new_Parser (set_validateChunk (Has reject_all) json_options)) reader
      = parse (new_Parser (set_validateChunk Absent json_options)) reader
      /\ yielded (parse (new_Parser (set_validateChunk (Has reject_all) json_options))
                    reader)
         = yielded (parse (new_Parser (set_validateChunk Absent json_options)) reader)).
Proof.
  intros reader.
  split; [reflexivity|].
  apply (@validateChunk_is_never_consulted runtime json_options reject_all reader);
    reflexivity.
Defined.

(** A stream of a malformed record, a comment line, a record without
    the configured path and a record with it, under the built-in
    extraction. *)
Lemma one_value_per_data_record_reached_witness :
  let p := @new_Parser runtime json_options in
  let reader :=
    [chunk (bytes (line "data:{oops" +++ line ": ping"
                   +++ line ("data:" +++ json_member "answer" "x")
                   +++ line ("data:" +++ json_member "content" "hi")));
     end_of_stream] in
  let o := options p in
  let rows := data_rows (records reader) in
  read (chunkParser o) = None
  /\ forallb
       (fun row => negb (concat_throws o (chunkContent o (substring_from 5 row))))
       rows = true
  /\ yielded (parse p reader)
     = [VObj [("text", VStr "")]; VObj [("text", VStr "")];
        VObj [("text", VStr "hi")]]
  /\ List.length (yielded (parse p reader)) = List.length (reached o rows)
  /\ List.length (yielded (parse p reader)) = List.length rows.
Proof.
  intros p reader o rows.
  split; [reflexivity|]. split; [reflexivity|].
  destruct (@one_value_per_data_record_reached runtime p reader eq_refl)
    as (Hv & Hl & _ & Hall).
  split; [rewrite Hv; reflexivity|]. split; [exact Hl|].
  apply (Hall eq_refl).
Defined.

(* ================================================================== *)
(** * Further runs on the sample runtime *)

Import Scenarios.

(** Two records parsed without accumulation. *)
Lemma standalone_values_are_the_fragments_witness :
  let p := @new_Parser runtime standalone_options in
  let reader := stream ["data:" +++ json_member "content" "a";
                        "data:" +++ json_member "content" "b"] in
  read (chunkParser (options p)) = None
  /\ read (autoConcat (options p)) <> Some true
  /\ yielded (parse p reader)
     = map (shape (options p)) (fragments (options p) (records reader)).
Proof.
  intros p reader.
  split; [reflexivity|]. split; [discriminate|].
  apply (@standalone_values_are_the_fragments runtime p reader);
    [reflexivity | discriminate].
Defined.

(** The values of that run. *)
Example standalone_values :
  yielded (@parse runtime (new_Parser standalone_options)
             (stream ["data:" +++ json_member "content" "a";
                      "data:" +++ json_member "content" "b"]))
  = [VStr "a"; VStr "b"].
Proof. vm_compute. reflexivity. Qed.

(** A custom parser over three records. *)
Lemma custom_run_threads_the_context_witness :
  let p := @new_Parser runtime rejecting_options in
  let reader := stream ["data:ok"; "event: x"; "data:bad"; "data:late"] in
  read (chunkParser (options p)) = Some rejecting_parser
  /\ effects (parse p reader)
     = custom_run rejecting_parser [] (payloads (records reader)).
Proof.
  intros p reader.
  split; [reflexivity|].
  apply (@custom_run_threads_the_context runtime p rejecting_parser reader);
    reflexivity.
Defined.

(** A call that returns, in a run of the same parser. *)
Lemma call_is_followed_by_its_yield_or_ends_the_run_witness :
  let p := @new_Parser runtime rejecting_options in
  let reader := stream ["data:ok"; "data:fine"] in
  let post := [EYield (VStr "ok"); ECall "fine" (Some (VStr "fine"));
               EYield (VStr "fine"); ERead] in
  parse p reader = [ERead] ++ ECall "ok" (Some (VStr "ok")) :: post
  /\ exists post', post = EYield (VStr "ok") :: post'.
Proof.
  intros p reader post.
  split; [reflexivity|].
  apply (@call_is_followed_by_its_yield_or_ends_the_run runtime p reader
           [ERead] post "ok" (Some (VStr "ok"))).
  reflexivity.
Defined.

(** The same parser under two bundles that differ in every other key. *)
Lemma custom_parser_overrides_extraction_options_witness :
  let reader := stream ["data:ok"; "data:bad"] in
  chunkParser rejecting_options = Has rejecting_parser
  /\ chunkParser rejecting_options_full = Has rejecting_parser
  /\ parse (new_Parser rejecting_options) reader
     = parse (new_Parser rejecting_options_full) reader.
Proof.
  intros reader.
  split; [reflexivity|]. split; [reflexivity|].
  apply (@custom_parser_overrides_extraction_options runtime rejecting_options
           rejecting_options_full rejecting_parser reader); reflexivity.
Defined.

(** The OpenAi factory called with options that set a path, a shape
    and no accumulation, and called with a parser. *)
Lemma extraction_presets_keep_only_the_callers_parser_witness :
  let reader := stream ["data:" +++ openai_delta "A"; "data:bad"] in
  @preset_parser runtime OpenAi = None
  /\ read (chunkParser answer_options) = None
  /\ parse (Parser_PRESETS OpenAi answer_options) reader
     = parse (Parser_PRESETS OpenAi no_options) reader
  /\ chunkParser rejecting_options_full = Has rejecting_parser
  /\ parse (Parser_PRESETS OpenAi rejecting_options_full) reader
     = parse (new_Parser (only_chunkParser rejecting_parser)) reader.
Proof.
  intros reader.
  split; [reflexivity|]. split; [reflexivity|]. split.
  - apply (proj1 (@extraction_presets_keep_only_the_callers_parser runtime
                    OpenAi answer_options reader eq_refl)).
    reflexivity.
  - split; [reflexivity|].
    apply (proj2 (@extraction_presets_keep_only_the_callers_parser runtime
                    OpenAi rejecting_options_full reader eq_refl)
             rejecting_parser).
    reflexivity.
Defined.

(** Two buffers and the end, with a malformed record among them. *)
Lemma builtin_extraction_reads_the_whole_stream_witness :
  let p := @new_Parser runtime json_options in
  let values := [bytes (line "data:{oops" +++ "da"); bytes (line "ta:nothing")] in
  let reader := map chunk values ++ Read true None :: [ReadRejected] in
  read (chunkParser (options p)) = None
  /\ forallb is_primitive (fragments (options p) (records reader)) = true
  /\ reads (parse p reader) = S (List.length values).
Proof.
  intros p values reader.
  split; [reflexivity|]. split; [reflexivity|].
  apply (@builtin_extraction_reads_the_whole_stream runtime p values None
           [ReadRejected]); reflexivity.
Defined.

(** [{autoConcat: undefined, outputType: 'text'}] *)
Lemma explicit_undefined_replaces_the_default_witness :
  let reader := stream ["data:" +++ json_member "content" "a";
                        "data:" +++ json_member "content" "b"] in
  read (chunkParser undefined_autoConcat) = None
  /\ autoConcat undefined_autoConcat = Undef
  /\ yielded (parse (new_Parser undefined_autoConcat) reader)
     = map (shape (options (new_Parser undefined_autoConcat)))
         (fragments (options (new_Parser undefined_autoConcat)) (records reader)).
Proof.
  intros reader.
  split; [reflexivity|]. split; [reflexivity|].
  apply (proj1 (@explicit_undefined_replaces_the_default runtime
                  undefined_autoConcat reader eq_refl)).
  reflexivity.
Defined.

(** A finished node with an empty output, on a context that has a
    title: the candidate is falsy and the title stays. *)
Lemma DifyApp_keeps_current_on_a_falsy_candidate_witness :
  let ctx : @ParseContext runtime := [("current", VStr "Step 1"); ("n", VNull)] in
  let chunk := node_finished "" in
  let result : JsVal Z := VStr "Step 1" in
  DifyApp_chunkParser chunk ctx = Some (result, ctx)
  /\ (result = obj_get ctx "current"
      /\ (forall k : string, k <> "current" -> obj_get ctx k = obj_get ctx k)
      /\ (result = obj_get ctx "current" \/ truthy result = true)
      /\ exists parsed : JsVal Z,
           JSON_parse (trim chunk) = Some parsed
           /\ match DifyApp_candidate (js_or parsed (VObj [])) with
              | Some path =>
                  exists candidate : JsVal Z,
                    members (js_or parsed (VObj [])) path = Some candidate
                    /\ result = (if truthy candidate then candidate
                                 else obj_get ctx "current")
              | None => result = obj_get ctx "current" /\ ctx = ctx
              end).
Proof.
  intros ctx chunk result.
  split; [reflexivity|].
  apply (@DifyApp_keeps_current_on_a_falsy_candidate runtime chunk ctx ctx result).
  reflexivity.
Defined.

(** The candidate of that event is its output, the empty string. *)
Example falsy_candidate_of_a_finished_node :
  option_map (fun parsed : JsVal Z =>
                (DifyApp_candidate (js_or parsed (VObj [])),
                 members (js_or parsed (VObj [])) ["data"; "outputs"; "output"]))
    (@JSON_parse runtime (trim (node_finished "")))
  = Some (Some ["data"; "outputs"; "output"], Some (VStr "")).
Proof. vm_compute. reflexivity. Qed.

(** A finished node with an output replaces the title. *)
Example truthy_candidate_replaces_current :
  @DifyApp_chunkParser runtime (node_finished "done")
    [("current", VStr "Step 1"); ("n", VNull)]
  = Some (VStr "done", [("current", VStr "done"); ("n", VNull)]).
Proof. vm_compute. reflexivity. Qed.

(** A started node, a ping and a finished node with an empty output. *)
Lemma DifyApp_values_stay_truthy_witness :
  let reader := stream ["data:" +++ node_started "llm" "Step 1";
                        "data:" +++ ping;
                        "data:" +++ node_finished ""] in
  let post : list (JsVal Z) := [VStr "Step 1"; VStr "Step 1"] in
  yielded (parse (Parser_PRESETS DifyApp no_options) reader)
  = [] ++ VStr "Step 1" :: post
  /\ truthy (VStr "Step 1" : JsVal Z) = true
  /\ Forall (fun w : JsVal Z => truthy w = true) post.
Proof.
  intros reader post.
  split; [reflexivity|]. split; [reflexivity|].
  apply (@DifyApp_values_stay_truthy runtime no_options reader [] post
           (VStr "Step 1")); reflexivity.
Defined.

(** A delta with the content [hi] on a context that has seen it once. *)
Lemma DeepSeek_keys_the_context_by_content_witness :
  let ctx : @ParseContext runtime := [("hi", VStr "hi")] in
  let ctx' : @ParseContext runtime := [("hi", VStr "hihi")] in
  plain_content (openai_delta "hi") = true
  /\ DeepSeek_chunkParser (openai_delta "hi") ctx = Some (VObj ctx', ctx')
  /\ (VObj ctx' = VObj ctx'
      /\ (keyed_by_content ctx -> keyed_by_content ctx')
      /\ exists obj : JsVal Z,
           JSON_parse (trim (openai_delta "hi")) = Some obj
           /\ let content := get obj "choices[0].delta.content" in
              (truthy content = false -> ctx' = ctx)
              /\ (forall k : string,
                    k <> ToString content -> obj_get ctx' k = obj_get ctx k)).
Proof.
  intros ctx ctx'.
  split; [reflexivity|]. split; [reflexivity|].
  apply (@DeepSeek_keys_the_context_by_content runtime
           (openai_delta "hi") ctx ctx' (VObj ctx')); reflexivity.
Defined.

(** A DeepSeek stream whose second record is not JSON. *)
Lemma preset_parsers_end_the_run_on_malformed_json_witness :
  let reader := stream ["data:" +++ openai_delta "hi"; "data:{oops";
                        "data:" +++ openai_delta "late"] in
  let pre : list (@Event runtime) :=
    [ERead; ECall (openai_delta "hi") (Some (VObj [("hi", VStr "hi")]));
     EYield (VObj [("hi", VStr "hi")])] in
  @preset_parser runtime DeepSeek = Some DeepSeek_chunkParser
  /\ @JSON_parse runtime (trim "{oops") = None
  /\ parse (Parser_PRESETS DeepSeek no_options) reader
     = pre ++ ECall "{oops" None :: []
  /\ (@None (JsVal Z) = None /\ @nil (@Event runtime) = []).
Proof.
  intros reader pre.
  split; [reflexivity|]. split; [reflexivity|]. split; [reflexivity|].
  apply (@preset_parsers_end_the_run_on_malformed_json runtime DeepSeek
           DeepSeek_chunkParser no_options reader pre [] "{oops" None);
    reflexivity.
Defined.

(** Two text payloads with white space around them. *)
Lemma text_mode_accumulates_the_payloads_witness :
  let p := @new_Parser runtime text_options in
  let reader := stream ["data: a "; ": ping"; "data:b"] in
  read (chunkParser (options p)) = None
  /\ read (chunkType (options p)) = Some CT_text
  /\ read (autoConcat (options p)) = Some true
  /\ forall (k : nat) (v : JsVal Z),
       nth_error (yielded (parse p reader)) k = Some v ->
       emitted_text v
       = Some (String.concat "" (firstn (S k) (payloads (records reader)))).
Proof.
  intros p reader.
  split; [reflexivity|]. split; [reflexivity|]. split; [reflexivity|].
  apply (@text_mode_accumulates_the_payloads runtime p reader); reflexivity.
Defined.

(** The values of that run. *)
Example text_mode_values :
  yielded (@parse runtime (new_Parser text_options)
             (stream ["data: a "; ": ping"; "data:b"]))
  = [VObj [("text", VStr " a ")]; VObj [("text", VStr " a b")]].
Proof. vm_compute. reflexivity. Qed.

(** Three deltas, two of them with the same content. *)
Lemma DeepSeek_values_are_keyed_by_content_witness :
  let reader := stream ["data:" +++ openai_delta "hi";
                        "data:" +++ openai_delta "there";
                        "data:" +++ openai_delta "hi"] in
  let values := yielded (parse (Parser_PRESETS DeepSeek no_options) reader) in
  forallb plain_content (payloads (records reader)) = true
  /\ (Forall (fun v : JsVal Z =>
                exists c : @ParseContext runtime, v = VObj c /\ keyed_by_content c)
        values
      /\ forall (k : nat) (v : JsVal Z),
           nth_error values k = Some v ->
           exists c : @ParseContext runtime,
             v = VObj c
             /\ forall key : string,
                  obj_get c key
                  = filed_value key
                      (filed key (firstn (S k) (payloads (records reader))))).
Proof.
  intros reader values.
  split; [reflexivity|].
  apply (@DeepSeek_values_are_keyed_by_content runtime no_options reader).
  reflexivity.
Defined.

(** The DeepSeek preset files each content under its own text. *)
Example DeepSeek_values :
  yielded (@parse runtime (Parser_PRESETS DeepSeek no_options)
             (stream ["data:" +++ openai_delta "hi";
                      "data:" +++ openai_delta "there";
                      "data:" +++ openai_delta "hi"]))
  = [VObj [("hi", VStr "hi")];
     VObj [("hi", VStr "hi"); ("there", VStr "there")];
     VObj [("hi", VStr "hihi"); ("there", VStr "there")]].
Proof. vm_compute. reflexivity. Qed.


(* ================================================================== *)
(** * Streams on which the specification and the code part ways *)

(** A record whose fragment is an object with an own [toString],
    followed by an ordinary record, under the default options: two
    records begin with [data:] and nothing is yielded, so it is not one
    value per such record. The concatenation of the first fragment
    throws and the stream ends. *)
Lemma one_value_per_data_record_counterexample :
  let p := @new_Parser runtime no_options in
  let reader := stream ["data:" +++ unconvertible;
                        "data:" +++ json_member "content" "hi"] in
  read (chunkParser (options p)) = None
  /\ List.length (data_rows (records reader)) = 2
  /\ yielded (parse p reader) = []
  /\ List.length (yielded (parse p reader))
     <> List.length (data_rows (records reader)).
Proof.
  intros p reader.
  split; [reflexivity|]. split; [reflexivity|]. split; [reflexivity|].
  vm_compute. discriminate.
Qed.

(** C4. Line reassembly should not depend on where the reads cut the
    stream, and the loop carries the unfinished line over for that;
    but every buffer is decoded on its own, without the [stream] flag.
    The line [data:] followed by the letter e with an acute accent
    (bytes C3 A9), delivered in one read, gives that letter; cut
    between the two bytes of the letter, the same bytes give two
    U+FFFD, and the records of the two deliveries differ. *)
Theorem multibyte_cut_changes_the_records :
  let p := @new_Parser Utf8.runtime Utf8.text_options in
  let whole := Utf8.e_acute_line in
  let head := firstn 6 whole in
  let tail := skipn 6 whole in
  head ++ tail = whole
  /\ yielded (parse p [chunk whole; end_of_stream]) = [VStr Utf8.e_acute]
  /\ yielded (parse p [chunk head; chunk tail; end_of_stream])
     = [VStr (Utf8.replacement +++ Utf8.replacement)]
  /\ @records Utf8.runtime [chunk head; chunk tail; end_of_stream]
     <> @records Utf8.runtime [chunk whole; end_of_stream].
Proof.
  intros p whole head tail.
  split; [reflexivity|]. split; [reflexivity|]. split; [reflexivity|].
  vm_compute. discriminate.
Qed.
